(** * gst-deepspeech: the segmentation and dispatch engine of [gstdeepspeech.cc]

    A shallow embedding of the GStreamer element [deepspeech]:
    the energy loop and the silence gate of [gst_deepspeech_chain], the
    end-of-stream branch of [gst_deepspeech_sink_event], the worker
    [run_model_async] with [gst_deepspeech_message_new], and the interleaving
    of the workers of the thread pool around the global [mutex]. *)

From Stdlib Require Import Strings.String Strings.Byte.
From Stdlib Require Import ZArith QArith List Bool Lia Permutation.
Import ListNotations.
Open Scope Z_scope.

(* ===================================================================== *)
(** ** The part of the GStreamer buffer API the element calls *)
(* ===================================================================== *)

Module Gst.

(** [GstClockTime] is a [guint64]; [GST_CLOCK_TIME_NONE] is its all-ones
    value. *)
Definition GstClockTime := Z.
Definition GST_CLOCK_TIME_NONE : GstClockTime := 2 ^ 64 - 1.

(** A [GstBuffer] as the element sees it: the presentation timestamp
    ([GST_BUFFER_TIMESTAMP]), the duration ([GST_BUFFER_DURATION]) and the
    bytes of its memory, in order. *)
Record GstBuffer : Type := mkBuffer {
  timestamp : GstClockTime;
  duration  : GstClockTime;
  data      : list byte
}.

(** [gst_buffer_new ()]: a buffer without memory; its timestamp and
    duration are initialised to [GST_CLOCK_TIME_NONE]. *)
Definition gst_buffer_new : GstBuffer :=
  {| timestamp := GST_CLOCK_TIME_NONE;
     duration  := GST_CLOCK_TIME_NONE;
     data      := [] |}.

(** [gst_buffer_get_size (b)]: the total number of bytes of the memory. *)
Definition gst_buffer_get_size (b : GstBuffer) : Z :=
  Z.of_nat (length (data b)).

(** [gst_buffer_append (buf1, buf2)]: appends all the memory of [buf2] to
    [buf1] and returns [buf1]; the result holds the concatenation of the
    two memories.  The call only moves memory: the returned buffer is
    [buf1] itself, with the timestamp and duration [buf1] had.  The element
    takes a reference on [buf2] first ([gst_buffer_ref]), so the library
    works on a copy of [buf2] and leaves the caller's buffer as it was. *)
Definition gst_buffer_append (buf1 buf2 : GstBuffer) : GstBuffer :=
  {| timestamp := timestamp buf1;
     duration  := duration buf1;
     data      := data buf1 ++ data buf2 |}.

(** [gst_buffer_copy_deep (b)]: a copy of [b], timestamps and memory
    included. *)
Definition gst_buffer_copy_deep (b : GstBuffer) : GstBuffer :=
  {| timestamp := timestamp b;
     duration  := duration b;
     data      := data b |}.

End Gst.
Import Gst.

(* ===================================================================== *)
(** ** [gdouble] arithmetic of the energy loop *)
(* ===================================================================== *)

(** The loop of [gst_deepspeech_chain] computes in [gdouble] (IEEE 754
    binary64, round to nearest even) on values that are non-negative
    integers: squares of 16-bit samples and their running sum.  Such a
    double is written as the integer it holds, and the rounding of the
    operations is written out. *)
Module Double.

(** The nearest binary64 value of a non-negative integer [z]: integers
    below [2^53] are representable; above, the 53 leading bits are kept
    and the rest is rounded to nearest, ties to even. *)
Definition round (z : Z) : Z :=
  if z <? 2 ^ 53 then z
  else
    let e := Z.log2 z - 52 in
    let q := Z.shiftr z e in
    let r := z - Z.shiftl q e in
    let half := 2 ^ (e - 1) in
    if r <? half then Z.shiftl q e
    else if half <? r then Z.shiftl (q + 1) e
    else if Z.even q then Z.shiftl q e
    else Z.shiftl (q + 1) e.

Definition add (x y : Z) : Z := round (x + y).
Definition mul (x y : Z) : Z := round (x * y).

End Double.

(* ===================================================================== *)
(** ** Energy of a buffer (the loop of [gst_deepspeech_chain]) *)
(* ===================================================================== *)

(** [in[j]] for the [gint16 *] view of the mapped bytes (S16LE caps). *)
Definition gint16_of_bytes (lo hi : byte) : Z :=
  let u := Z.of_N (Byte.to_N lo) + 256 * Z.of_N (Byte.to_N hi) in
  if u <? 32768 then u else u - 65536.

(** The values of a [gint16]. *)
Definition is_gint16 (s : Z) : Prop := - 32768 <= s <= 32767.

(** The samples [in[0] .. in[info.size/2 - 1]]; a trailing odd byte is not
    read.  The counter [j] is a [guint]: the embedding reads buffers of fewer
    than [2^32] samples. *)
Fixpoint samples (bytes : list byte) : list Z :=
  match bytes with
  | lo :: hi :: rest => gint16_of_bytes lo hi :: samples rest
  | _ => []
  end.

(** The loop state [(squaresum, peaksquare)]. *)
Definition energy_step (st : Z * Z) (s : Z) : Z * Z :=
  let square := Double.mul s s in
  let peaksquare := if snd st <? square then square else snd st in
  (Double.add (fst st) square, peaksquare).

Definition energy_loop (ins : list Z) : Z * Z :=
  fold_left energy_step ins (0, 0).

(** [normalizer = (gdouble) (G_GINT64_CONSTANT(1) << 30)] *)
Definition normalizer : Z := Z.shiftl 1 30.

(** A double [x / normalizer] with [x] an integer-valued double: the
    division by a power of two is exact. *)
Definition normalized (x : Z) : Q := inject_Z x / inject_Z normalizer.

Definition squaresum (b : GstBuffer) : Z := fst (energy_loop (samples (data b))).
Definition peaksquare (b : GstBuffer) : Z := snd (energy_loop (samples (data b))).

(** [ncs = squaresum / normalizer] and [nps = peaksquare / normalizer]. *)
Definition ncs (b : GstBuffer) : Q := normalized (squaresum b).
Definition nps (b : GstBuffer) : Q := normalized (peaksquare b).



(* ===================================================================== *)
(** ** The element instance and what it does to its surroundings *)
(* ===================================================================== *)

(** Comparison of two finite doubles, on their exact values. *)
Definition Qltb (x y : Q) : bool :=
  match (x ?= y)%Q with
  | Lt => true
  | _ => false
  end.

Definition G_MAXINT : Z := 2 ^ 31 - 1.
Definition G_MAXUINT32 : Z := 2 ^ 32 - 1.

(** Modelled from the spec: the instance structure [GstDeepSpeech] is
    declared in [gstdeepspeech.h], which is not among the sources.  The
    fields the chain function uses are taken with the types the
    specification gives them: [silence_threshold] a double,
    [quiet_bufs] an unsigned 32-bit counter; [silence_length] is read with
    [g_value_get_int]. *)
Record GstDeepSpeech : Type := mkDeepSpeech {
  silence_threshold : Q;
  silence_length    : Z;
  quiet_bufs        : Z;
  buf               : GstBuffer
}.

Definition set_buf (ds : GstDeepSpeech) (b : GstBuffer) : GstDeepSpeech :=
  {| silence_threshold := silence_threshold ds;
     silence_length    := silence_length ds;
     quiet_bufs        := quiet_bufs ds;
     buf               := b |}.

Definition set_quiet_bufs (ds : GstDeepSpeech) (n : Z) : GstDeepSpeech :=
  {| silence_threshold := silence_threshold ds;
     silence_length    := silence_length ds;
     quiet_bufs        := n;
     buf               := buf ds |}.

(** [DEFAULT_SILENCE_THRESHOLD 0.1], the double nearest to one tenth, and
    [DEFAULT_SILENCE_LENGTH 5]. *)
Definition DEFAULT_SILENCE_THRESHOLD : Q :=
  3602879701896397 # 36028797018963968.
Definition DEFAULT_SILENCE_LENGTH : Z := 5.

(** The instance fields as [gst_deepspeech_init] leaves them. *)
Definition gst_deepspeech_init : GstDeepSpeech :=
  {| silence_threshold := DEFAULT_SILENCE_THRESHOLD;
     silence_length    := DEFAULT_SILENCE_LENGTH;
     quiet_bufs        := 0;
     buf               := gst_buffer_new |}.

(** [gst_deepspeech_set_property], cases [PROP_SILENCE_THRESHOLD] and
    [PROP_SILENCE_LENGTH]. *)
Definition set_silence_threshold (ds : GstDeepSpeech) (v : Q) : GstDeepSpeech :=
  {| silence_threshold := v;
     silence_length    := silence_length ds;
     quiet_bufs        := quiet_bufs ds;
     buf               := buf ds |}.

Definition set_silence_length (ds : GstDeepSpeech) (v : Z) : GstDeepSpeech :=
  {| silence_threshold := silence_threshold ds;
     silence_length    := v;
     quiet_bufs        := quiet_bufs ds;
     buf               := buf ds |}.

(** The ranges of the two properties as [gst_deepspeech_class_init] installs
    them: [g_param_spec_double (.., 0, 1.0, ..)] and
    [g_param_spec_int (.., 0, G_MAXINT, ..)]. *)
Definition valid_config (ds : GstDeepSpeech) : Prop :=
  (0 <= silence_threshold ds)%Q /\ (silence_threshold ds <= 1)%Q /\
  0 <= silence_length ds <= G_MAXINT.

(** Sink events, as far as the switch of [gst_deepspeech_sink_event]
    tells them apart. *)
Inductive GstEventType : Type :=
| GST_EVENT_CAPS
| GST_EVENT_EOS
| GST_EVENT_OTHER.

(** The calls by which the element acts on the thread pool and on its
    source pad, in program order. *)
Inductive Action : Type :=
| ThreadPoolPush (segment : GstBuffer)   (* g_thread_pool_push (pool, segment, NULL) *)
| ThreadPoolFree                         (* g_thread_pool_free (pool, FALSE, TRUE) *)
| PadPush (b : GstBuffer)                (* gst_pad_push (srcpad, b) *)
| PadEventDefault (e : GstEventType).    (* gst_pad_event_default (pad, parent, e) *)

Definition submitted (acts : list Action) : list GstBuffer :=
  flat_map (fun a => match a with ThreadPoolPush s => [s] | _ => [] end) acts.

Definition forwarded (acts : list Action) : list GstBuffer :=
  flat_map (fun a => match a with PadPush b => [b] | _ => [] end) acts.

(** [is_active]: the first disjunct of the append test. *)
Definition is_active (ds : GstDeepSpeech) (b : GstBuffer) : bool :=
  Qltb (silence_threshold ds) (ncs b).

Definition accumulator_nonempty (ds : GstDeepSpeech) : bool :=
  0 <? gst_buffer_get_size (buf ds).

(** The three conditionals of [gst_deepspeech_chain], in order.

    [if (ncs > silence_threshold || gst_buffer_get_size (buf) > 0)]:
    reference the incoming buffer and append it. *)
Definition chain_append (ds : GstDeepSpeech) (b : GstBuffer) : GstDeepSpeech :=
  if Qltb (silence_threshold ds) (ncs b) || (0 <? gst_buffer_get_size (buf ds))
  then set_buf ds (gst_buffer_append (buf ds) b)
  else ds.

(** [if (ncs < silence_threshold && gst_buffer_get_size (buf) > 0)
       quiet_bufs++; else quiet_bufs = 0;] *)
Definition chain_quiet (ds : GstDeepSpeech) (b : GstBuffer) : GstDeepSpeech :=
  if Qltb (ncs b) (silence_threshold ds) && (0 <? gst_buffer_get_size (buf ds))
  then set_quiet_bufs ds ((quiet_bufs ds + 1) mod 2 ^ 32)
  else set_quiet_bufs ds 0.

(** [if (quiet_bufs > silence_length && gst_buffer_get_size (buf) > 0)]:
    push a deep copy to the pool, start a new buffer, clear the counter. *)
Definition chain_flush (ds : GstDeepSpeech) : GstDeepSpeech * list Action :=
  if (silence_length ds <? quiet_bufs ds) && (0 <? gst_buffer_get_size (buf ds))
  then (set_quiet_bufs (set_buf ds gst_buffer_new) 0,
        [ThreadPoolPush (gst_buffer_copy_deep (buf ds))])
  else (ds, []).

(** [gst_deepspeech_chain]: the new instance state and the calls made; the
    last statement pushes the incoming buffer on the source pad. *)
Definition gst_deepspeech_chain (ds : GstDeepSpeech) (b : GstBuffer)
  : GstDeepSpeech * list Action :=
  let ds1 := chain_append ds b in
  let ds2 := chain_quiet ds1 b in
  let (ds3, acts) := chain_flush ds2 in
  (ds3, acts ++ [PadPush b]).

(** [gst_deepspeech_sink_event]. *)
Definition gst_deepspeech_sink_event (ds : GstDeepSpeech) (e : GstEventType)
  : GstDeepSpeech * list Action :=
  match e with
  | GST_EVENT_CAPS => (ds, [PadEventDefault e])
  | GST_EVENT_EOS =>
      (ds,
       (if 0 <? gst_buffer_get_size (buf ds)
        then [ThreadPoolPush (gst_buffer_copy_deep (buf ds))]
        else [])
       ++ [ThreadPoolFree; PadEventDefault e])
  | GST_EVENT_OTHER => (ds, [PadEventDefault e])
  end.

(** The chain function called on the buffers of a stream, in arrival
    order. *)
Fixpoint chain_stream (ds : GstDeepSpeech) (bs : list GstBuffer)
  : GstDeepSpeech * list Action :=
  match bs with
  | [] => (ds, [])
  | b :: bs' =>
      let (ds1, acts1) := gst_deepspeech_chain ds b in
      let (ds2, acts2) := chain_stream ds1 bs' in
      (ds2, acts1 ++ acts2)
  end.

(** What the pad functions and the property setter can do to an instance. *)
Inductive Call : Type :=
| CallChain (b : GstBuffer)
| CallSinkEvent (e : GstEventType)
| CallSetThreshold (v : Q)
| CallSetLength (v : Z).

Definition valid_call (c : Call) : Prop :=
  match c with
  | CallSetThreshold v => (0 <= v)%Q /\ (v <= 1)%Q
  | CallSetLength v => 0 <= v <= G_MAXINT
  | _ => True
  end.

Definition call (ds : GstDeepSpeech) (c : Call) : GstDeepSpeech * list Action :=
  match c with
  | CallChain b => gst_deepspeech_chain ds b
  | CallSinkEvent e => gst_deepspeech_sink_event ds e
  | CallSetThreshold v => (set_silence_threshold ds v, [])
  | CallSetLength v => (set_silence_length ds v, [])
  end.

(** The instance states an element can be in: from [gst_deepspeech_init],
    by calls with property values inside the installed ranges. *)
Inductive reachable : GstDeepSpeech -> Prop :=
| reachable_init : reachable gst_deepspeech_init
| reachable_call ds c :
    reachable ds -> valid_call c -> reachable (fst (call ds c)).

(** The silence-gate invariant. *)
Definition gate_invariant (ds : GstDeepSpeech) : Prop :=
  0 <= quiet_bufs ds <= silence_length ds /\
  (0 < quiet_bufs ds -> 0 < gst_buffer_get_size (buf ds)).

(* ===================================================================== *)
(** ** The worker [run_model_async] and the message it posts *)
(* ===================================================================== *)

(** The structure of the element message ["deepspeech"]. *)
Record GstMessage : Type := mkMessage {
  msg_timestamp    : GstClockTime;
  msg_stream_time  : GstClockTime;
  msg_running_time : GstClockTime;
  msg_duration     : GstClockTime;
  msg_text         : string
}.

Section Worker.

(** The inference engine, [model->getInputVector] followed by
    [model->infer]: the characters of the returned C string for the bytes
    of a segment. *)
Variable infer : list byte -> string.

(** [gst_segment_to_running_time] and [gst_segment_to_stream_time] on the
    segment of the element, as functions of the position. *)
Variable segment_to_running_time : GstClockTime -> GstClockTime.
Variable segment_to_stream_time : GstClockTime -> GstClockTime.

(** [gst_deepspeech_message_new (deepspeech, buf, text)] *)
Definition gst_deepspeech_message_new (b : GstBuffer) (text : string)
  : GstMessage :=
  {| msg_timestamp    := timestamp b;
     msg_stream_time  := segment_to_stream_time (timestamp b);
     msg_running_time := segment_to_running_time (timestamp b);
     msg_duration     := duration b;
     msg_text         := text |}.

(** The messages [run_model_async] posts on the bus for one segment:
    [if (strlen (result) > 0) gst_element_post_message (..)]. *)
Definition post_result (b : GstBuffer) (result : string) : list GstMessage :=
  if (0 <? String.length result)%nat
  then [gst_deepspeech_message_new b result]
  else [].

Definition run_model_async (b : GstBuffer) : list GstMessage :=
  post_result b (infer (data b)).

(** The messages of the segments an element submitted, one worker after
    the other. *)
Definition recognise (acts : list Action) : list GstMessage :=
  flat_map run_model_async (submitted acts).

(** *** The workers of the thread pool, statement by statement *)

(** Where a worker stands in [run_model_async]: the statement it executes
    next. *)
Inductive pc : Type :=
| AtMap              (* gst_buffer_map (buf, &info, GST_MAP_READ) *)
| AtLock             (* g_mutex_lock (&mutex) *)
| AtGetInputVector   (* model->getInputVector (..) *)
| AtInfer            (* result = model->infer (mfcc, n_frames) *)
| AtUnlock           (* g_mutex_unlock (&mutex) *)
| AtPost             (* if (strlen (result) > 0) post the message *)
| AtFree             (* free (mfcc); free (result); gst_buffer_unref (buf) *)
| Returned.

Record Worker : Type := mkWorker {
  w_buf    : GstBuffer;
  w_pc     : pc;
  w_result : string
}.

(** The pool: the global [mutex] (locked or not), one worker per pushed
    segment (the pool is created with [max_threads = -1]), and the
    messages posted so far. *)
Record Pool : Type := mkPool {
  mutex_locked : bool;
  workers      : list Worker;
  bus          : list GstMessage
}.

(** A worker between [g_mutex_lock] and [g_mutex_unlock]: it computes the
    features or the inference, or is about to release the lock. *)
Definition in_inference (w : Worker) : bool :=
  match w_pc w with
  | AtGetInputVector | AtInfer | AtUnlock => true
  | _ => false
  end.

(** One statement of one worker: the mutex before and after, the worker
    before and after, and what it posted. *)
Inductive worker_step :
  bool -> Worker -> bool -> Worker -> list GstMessage -> Prop :=
| ws_map m b r :
    worker_step m (mkWorker b AtMap r) m (mkWorker b AtLock r) []
| ws_lock b r :
    worker_step false (mkWorker b AtLock r)
                true (mkWorker b AtGetInputVector r) []
| ws_features m b r :
    worker_step m (mkWorker b AtGetInputVector r) m (mkWorker b AtInfer r) []
| ws_infer m b r :
    worker_step m (mkWorker b AtInfer r)
                m (mkWorker b AtUnlock (infer (data b))) []
| ws_unlock m b r :
    worker_step m (mkWorker b AtUnlock r) false (mkWorker b AtPost r) []
| ws_post m b r :
    worker_step m (mkWorker b AtPost r) m (mkWorker b AtFree r)
                (post_result b r)
| ws_free m b r :
    worker_step m (mkWorker b AtFree r) m (mkWorker b Returned r) [].

(** One step of the pool: a segment is pushed and gets a worker, or some
    worker executes its next statement. *)
Inductive pool_step : Pool -> Pool -> Prop :=
| ps_push m ws msgs seg :
    pool_step (mkPool m ws msgs)
              (mkPool m (ws ++ [mkWorker seg AtMap EmptyString]) msgs)
| ps_worker m m' ws1 w w' ws2 msgs posted :
    worker_step m w m' w' posted ->
    pool_step (mkPool m (ws1 ++ w :: ws2) msgs)
              (mkPool m' (ws1 ++ w' :: ws2) (msgs ++ posted)).

(** The pool as [g_thread_pool_new] and [g_mutex_init] leave it. *)
Definition pool_init : Pool :=
  {| mutex_locked := false; workers := []; bus := [] |}.

Inductive pool_reachable : Pool -> Prop :=
| pr_init : pool_reachable pool_init
| pr_step p p' : pool_reachable p -> pool_step p p' -> pool_reachable p'.

(** How many workers are inside the critical section. *)
Definition inference_count (ws : list Worker) : nat :=
  List.length (filter in_inference ws).

(** What a worker has posted so far: the outcome of the [strlen] test, once
    it is past it. *)
Definition posted_by (w : Worker) : list GstMessage :=
  match w_pc w with
  | AtFree | Returned => post_result (w_buf w) (w_result w)
  | _ => []
  end.

(** Past [model->infer], [result] is what the engine returned for the
    bytes of the segment. *)
Definition result_known (w : Worker) : Prop :=
  match w_pc w with
  | AtUnlock | AtPost | AtFree | Returned => w_result w = infer (data (w_buf w))
  | _ => True
  end.

(** The statements a worker still has to execute. *)
Definition remaining (w : Worker) : nat :=
  match w_pc w with
  | AtMap => 7
  | AtLock => 6
  | AtGetInputVector => 5
  | AtInfer => 4
  | AtUnlock => 3
  | AtPost => 2
  | AtFree => 1
  | Returned => 0
  end.

Definition pool_remaining (ws : list Worker) : nat :=
  list_sum (map remaining ws).

(** The workers running on their own, with no further push: what
    [g_thread_pool_free (pool, FALSE, TRUE)] waits for. *)
Inductive pool_drain : Pool -> Pool -> Prop :=
| drain_done p : pool_drain p p
| drain_step m m' ws1 w w' ws2 msgs posted p' :
    worker_step m w m' w' posted ->
    pool_drain (mkPool m' (ws1 ++ w' :: ws2) (msgs ++ posted)) p' ->
    pool_drain (mkPool m (ws1 ++ w :: ws2) msgs) p'.

End Worker.


(** The mutex as a number of holders. *)
Definition mutex_count (m : bool) : nat := if m then 1%nat else 0%nat.

(* ===================================================================== *)
(** ** Concrete buffers and instances for the examples *)
(* ===================================================================== *)

(** Times are in nanoseconds: 20 ms buffers at 0, 20 and 40 ms. *)
Definition b_loud : GstBuffer :=
  {| timestamp := 0; duration := 20000000; data := [xff; x7f] |}.

Definition b_silent : GstBuffer :=
  {| timestamp := 20000000; duration := 20000000; data := [x00; x00] |}.

Definition b_silent' : GstBuffer :=
  {| timestamp := 40000000; duration := 20000000; data := [x00; x00] |}.

(** One sample of value 16384: its square is a quarter of the normalizer. *)
Definition b_quarter : GstBuffer :=
  {| timestamp := 20000000; duration := 20000000; data := [x00; x40] |}.



(** An instance with [silence-threshold=0.25] and [silence-length=1]. *)
Definition ds_quarter : GstDeepSpeech :=
  set_silence_length (set_silence_threshold gst_deepspeech_init (1 # 4)) 1.

(** The same instance after a loud and a silent buffer. *)
Definition ds_quarter_started : GstDeepSpeech :=
  fst (chain_stream ds_quarter [b_loud; b_silent]).

(** An engine that recognises the letter a in every segment, one that
    recognises nothing, and a segment whose times are the positions. *)
Definition infer_a : list byte -> string := fun _ => "a"%string.
Definition infer_nothing : list byte -> string := fun _ => EmptyString.
Definition position_time : GstClockTime -> GstClockTime := fun t => t.

(** An instance with the default threshold and [silence-length=1]. *)
Definition ds_length_one : GstDeepSpeech :=
  set_silence_length gst_deepspeech_init 1.

(** A pool whose single worker, on [b_loud] with the engine [infer_a], has
    returned. *)
Definition pool_one_returned : Pool :=
  {| mutex_locked := false;
     workers := [mkWorker b_loud Returned "a"];
     bus := [gst_deepspeech_message_new position_time position_time b_loud "a"] |}.

(** A pool after two pushes, in which the first worker has mapped its
    buffer and taken the mutex. *)
Definition pool_one_inside : Pool :=
  {| mutex_locked := true;
     workers := [mkWorker b_loud AtGetInputVector EmptyString;
                 mkWorker b_silent AtMap EmptyString];
     bus := [] |}.

(* ===================================================================== *)
(** ** Further definitions: what a stream leaves in the segments *)
(* ===================================================================== *)

(** The buffers of a stream that the first conditional of
    [gst_deepspeech_chain] appends to the accumulator, in order. *)
Fixpoint captured (ds : GstDeepSpeech) (bs : list GstBuffer) : list GstBuffer :=
  match bs with
  | [] => []
  | b :: bs' =>
      (if Qltb (silence_threshold ds) (ncs b)
          || (0 <? gst_buffer_get_size (buf ds))
       then [b] else [])
      ++ captured (fst (gst_deepspeech_chain ds b)) bs'
  end.

(** How far the current segment is on its way to a flush: nothing while
    the accumulator is empty, else one for the speech plus the quiet run. *)
Definition segment_progress (ds : GstDeepSpeech) : Z :=
  if 0 <? gst_buffer_get_size (buf ds) then 1 + quiet_bufs ds else 0.

(** A buffer all of whose samples are zero. *)
Definition all_zero (b : GstBuffer) : Prop :=
  Forall (fun s => s = 0) (samples (data b)).

(** Three silent buffers. *)
Definition three_silent : list GstBuffer := [b_silent; b_silent'; b_silent].

(** An instance with [silence-threshold=0], the lower end of the range. *)
Definition ds_threshold_zero : GstDeepSpeech :=
  set_silence_threshold gst_deepspeech_init 0.

(** A segment that begins with the bytes of a buffer. *)
Definition starts_with (seg b : GstBuffer) : Prop :=
  exists rest, data seg = data b ++ rest.

(** A stream with speech, silence, a pause and speech again. *)
Definition two_utterances : list GstBuffer :=
  [b_silent; b_loud; b_silent; b_silent'; b_silent; b_loud; b_quarter].

(* ===================================================================== *)
(** ** Properties of the element and the loaded model *)
(* ===================================================================== *)

(** The property ids of the final version. *)
Inductive PropId : Type :=
| PROP_0
| PROP_SPEECH_MODEL
| PROP_ALPHABET
| PROP_LANGUAGE_MODEL
| PROP_TRIE
| PROP_SILENCE_THRESHOLD
| PROP_SILENCE_LENGTH.

(** A [GValue] of one of the three types the properties have; a string
    value may hold [NULL]. *)
Inductive GValue : Type :=
| GString (s : option string)
| GDouble (d : Q)
| GInt (i : Z).

(** The GLib accessors: on a value of another type they return [NULL] or
    zero. *)
Definition g_value_dup_string (v : GValue) : option string :=
  match v with GString s => s | _ => None end.

Definition g_value_get_double (v : GValue) : Q :=
  match v with GDouble d => d | _ => 0%Q end.

Definition g_value_get_int (v : GValue) : Z :=
  match v with GInt i => i | _ => 0 end.

Definition N_CEP : Z := 26.
Definition N_CONTEXT : Z := 9.
Definition BEAM_WIDTH : Z := 500.
Definition LM_WEIGHT : Q := 7 # 4.
Definition WORD_COUNT_WEIGHT : Q := 1.
Definition VALID_WORD_COUNT_WEIGHT : Q := 1.

Definition DEFAULT_SPEECH_MODEL : string :=
  "/usr/share/deepspeech/models/output_graph.pb".
Definition DEFAULT_LANGUAGE_MODEL : string :=
  "/usr/share/deepspeech/models/lm.binary".
Definition DEFAULT_TRIE : string := "/usr/share/deepspeech/models/trie".
Definition DEFAULT_ALPHABET : string :=
  "/usr/share/deepspeech/models/alphabet.txt".

(** A [Model] of the engine, as what it was built from: the arguments of
    the constructor and of [enableDecoderWithLM]. *)
Record Model : Type := mkModel {
  model_graph        : option string;
  model_n_cep        : Z;
  model_n_context    : Z;
  model_alphabet     : option string;
  model_beam_width   : Z;
  decoder_alphabet   : option string;
  decoder_lm         : option string;
  decoder_trie       : option string;
  decoder_lm_weight  : Q;
  decoder_word_count_weight       : Q;
  decoder_valid_word_count_weight : Q
}.

(** The instance with the fields the property functions and
    [gst_deepspeech_load_model] use, around the fields of the chain
    function. *)
Record Element : Type := mkElement {
  speech_model_path   : option string;
  alphabet_path       : option string;
  language_model_path : option string;
  trie_path           : option string;
  model               : Model;
  gate                : GstDeepSpeech
}.

(** The model [gst_deepspeech_load_model] builds from the four paths. *)
Definition model_of_paths (graph alphabet lm trie : option string) : Model :=
  {| model_graph := graph;
     model_n_cep := N_CEP;
     model_n_context := N_CONTEXT;
     model_alphabet := alphabet;
     model_beam_width := BEAM_WIDTH;
     decoder_alphabet := alphabet;
     decoder_lm := lm;
     decoder_trie := trie;
     decoder_lm_weight := LM_WEIGHT;
     decoder_word_count_weight := WORD_COUNT_WEIGHT;
     decoder_valid_word_count_weight := VALID_WORD_COUNT_WEIGHT |}.

(** [gst_deepspeech_load_model] *)
Definition gst_deepspeech_load_model (el : Element) : Element :=
  {| speech_model_path := speech_model_path el;
     alphabet_path := alphabet_path el;
     language_model_path := language_model_path el;
     trie_path := trie_path el;
     model := model_of_paths (speech_model_path el) (alphabet_path el)
                (language_model_path el) (trie_path el);
     gate := gate el |}.

(** The whole of [gst_deepspeech_init]: the default paths, the model loaded
    from them, and the fields of the chain function. *)
Definition element_init : Element :=
  gst_deepspeech_load_model
    {| speech_model_path := Some DEFAULT_SPEECH_MODEL;
       alphabet_path := Some DEFAULT_ALPHABET;
       language_model_path := Some DEFAULT_LANGUAGE_MODEL;
       trie_path := Some DEFAULT_TRIE;
       model := model_of_paths None None None None;
       gate := gst_deepspeech_init |}.

Definition with_gate (el : Element) (g : GstDeepSpeech) : Element :=
  {| speech_model_path := speech_model_path el;
     alphabet_path := alphabet_path el;
     language_model_path := language_model_path el;
     trie_path := trie_path el;
     model := model el;
     gate := g |}.

(** [gst_deepspeech_set_property]: the new instance, and whether
    [G_OBJECT_WARN_INVALID_PROPERTY_ID] was reached. *)
Definition gst_deepspeech_set_property (el : Element) (prop_id : PropId)
           (value : GValue) : Element * bool :=
  match prop_id with
  | PROP_SPEECH_MODEL =>
      (gst_deepspeech_load_model
         {| speech_model_path := g_value_dup_string value;
            alphabet_path := alphabet_path el;
            language_model_path := language_model_path el;
            trie_path := trie_path el;
            model := model el;
            gate := gate el |}, false)
  | PROP_ALPHABET =>
      (gst_deepspeech_load_model
         {| speech_model_path := speech_model_path el;
            alphabet_path := g_value_dup_string value;
            language_model_path := language_model_path el;
            trie_path := trie_path el;
            model := model el;
            gate := gate el |}, false)
  | PROP_LANGUAGE_MODEL =>
      (gst_deepspeech_load_model
         {| speech_model_path := speech_model_path el;
            alphabet_path := alphabet_path el;
            language_model_path := g_value_dup_string value;
            trie_path := trie_path el;
            model := model el;
            gate := gate el |}, false)
  | PROP_TRIE =>
      (gst_deepspeech_load_model
         {| speech_model_path := speech_model_path el;
            alphabet_path := alphabet_path el;
            language_model_path := language_model_path el;
            trie_path := g_value_dup_string value;
            model := model el;
            gate := gate el |}, false)
  | PROP_SILENCE_THRESHOLD =>
      (with_gate el (set_silence_threshold (gate el) (g_value_get_double value)),
       false)
  | PROP_SILENCE_LENGTH =>
      (with_gate el (set_silence_length (gate el) (g_value_get_int value)),
       false)
  | PROP_0 => (el, true)
  end.

(** [gst_deepspeech_get_property]: the value stored into the [GValue], or
    nothing when [G_OBJECT_WARN_INVALID_PROPERTY_ID] is reached. *)
Definition gst_deepspeech_get_property (el : Element) (prop_id : PropId)
  : option GValue :=
  match prop_id with
  | PROP_SPEECH_MODEL => Some (GString (speech_model_path el))
  | PROP_ALPHABET => Some (GString (alphabet_path el))
  | PROP_LANGUAGE_MODEL => Some (GString (language_model_path el))
  | PROP_TRIE => Some (GString (trie_path el))
  | PROP_SILENCE_THRESHOLD => Some (GDouble (silence_threshold (gate el)))
  | PROP_SILENCE_LENGTH => Some (GInt (silence_length (gate el)))
  | PROP_0 => None
  end.

(** The type of value each property is installed with in
    [gst_deepspeech_class_init]. *)
Definition prop_holds (prop_id : PropId) (v : GValue) : Prop :=
  match prop_id, v with
  | (PROP_SPEECH_MODEL | PROP_ALPHABET | PROP_LANGUAGE_MODEL | PROP_TRIE),
    GString _ => True
  | PROP_SILENCE_THRESHOLD, GDouble _ => True
  | PROP_SILENCE_LENGTH, GInt _ => True
  | _, _ => False
  end.

Definition is_path_prop (prop_id : PropId) : bool :=
  match prop_id with
  | PROP_SPEECH_MODEL | PROP_ALPHABET | PROP_LANGUAGE_MODEL | PROP_TRIE => true
  | _ => false
  end.

(** The loaded model is the one of the current paths. *)
Definition model_current (el : Element) : Prop :=
  model el = model_of_paths (speech_model_path el) (alphabet_path el)
               (language_model_path el) (trie_path el).

(** A sequence of property settings. *)
Fixpoint set_properties (el : Element) (ps : list (PropId * GValue))
  : Element :=
  match ps with
  | [] => el
  | (prop_id, v) :: ps' =>
      set_properties (fst (gst_deepspeech_set_property el prop_id v)) ps'
  end.



(* ===================================================================== *)
(** ** The first version of the chain function *)
(* ===================================================================== *)

(** The first version in the sources has no properties for the silence
    gate: the threshold [0.1] and the run limit [5] are literals of the
    chain function, and the sink event function has no end-of-stream
    branch. *)
Module Legacy.

Record GstDeepSpeech : Type := mkDeepSpeech {
  silent     : bool;
  quiet_bufs : Z;
  buf        : GstBuffer
}.

(** The literal [0.1] as a double. *)
Definition threshold : Q := 3602879701896397 # 36028797018963968.

Definition gst_deepspeech_chain (ds : GstDeepSpeech) (b : GstBuffer)
  : GstDeepSpeech * list Action :=
  let ds1 :=
    if Qltb threshold (ncs b) || (0 <? gst_buffer_get_size (buf ds))
    then mkDeepSpeech (silent ds) (quiet_bufs ds)
           (gst_buffer_append (buf ds) b)
    else ds in
  let ds2 :=
    if Qltb (ncs b) threshold && (0 <? gst_buffer_get_size (buf ds1))
    then mkDeepSpeech (silent ds1) ((quiet_bufs ds1 + 1) mod 2 ^ 32) (buf ds1)
    else mkDeepSpeech (silent ds1) 0 (buf ds1) in
  if (5 <? quiet_bufs ds2) && (0 <? gst_buffer_get_size (buf ds2))
  then (mkDeepSpeech (silent ds2) 0 gst_buffer_new,
        [ThreadPoolPush (gst_buffer_copy_deep (buf ds2)); PadPush b])
  else (ds2, [PadPush b]).

Definition gst_deepspeech_sink_event (ds : GstDeepSpeech) (e : GstEventType)
  : GstDeepSpeech * list Action :=
  (ds, [PadEventDefault e]).

Fixpoint chain_stream (ds : GstDeepSpeech) (bs : list GstBuffer)
  : GstDeepSpeech * list Action :=
  match bs with
  | [] => (ds, [])
  | b :: bs' =>
      let (ds1, acts1) := gst_deepspeech_chain ds b in
      let (ds2, acts2) := chain_stream ds1 bs' in
      (ds2, acts1 ++ acts2)
  end.

End Legacy.

(** The instance of the final version that stands for an instance of the
    first: the same counter and accumulator under the default properties. *)
Definition of_legacy (ds : Legacy.GstDeepSpeech) : GstDeepSpeech :=
  {| silence_threshold := DEFAULT_SILENCE_THRESHOLD;
     silence_length := DEFAULT_SILENCE_LENGTH;
     quiet_bufs := Legacy.quiet_bufs ds;
     buf := Legacy.buf ds |}.

(** Setting the trie, then the threshold, then the alphabet. *)
Definition some_settings : list (PropId * GValue) :=
  [(PROP_TRIE, GString (Some "/tmp/trie"%string));
   (PROP_SILENCE_THRESHOLD, GDouble (1 # 4));
   (PROP_ALPHABET, GString (Some "/tmp/alphabet.txt"%string))].

(** The length [run_model_async] hands to [model->getInputVector] with the
    mapped bytes: [(unsigned int) info.size]. *)
Definition input_vector_size (b : GstBuffer) : Z :=
  gst_buffer_get_size b mod 2 ^ 32.

(** A buffer of whole 16-bit samples. *)
Definition whole_samples (b : GstBuffer) : Prop :=
  Z.even (gst_buffer_get_size b) = true.
(* ===================================================================== *)
(** * Properties *)
(* ===================================================================== *)

(** ** Buffers and comparisons *)

Lemma gst_buffer_copy_deep_id (b : GstBuffer) : gst_buffer_copy_deep b = b.
Proof. destruct b; reflexivity. Qed.

Lemma gst_buffer_get_size_nonneg (b : GstBuffer) : 0 <= gst_buffer_get_size b.
Proof. unfold gst_buffer_get_size; lia. Qed.

Lemma gst_buffer_append_size (b1 b2 : GstBuffer) :
  gst_buffer_get_size (gst_buffer_append b1 b2)
  = gst_buffer_get_size b1 + gst_buffer_get_size b2.
Proof.
  unfold gst_buffer_get_size, gst_buffer_append; simpl.
  rewrite length_app; lia.
Qed.

Lemma Qltb_lt (x y : Q) : Qltb x y = true <-> (x < y)%Q.
Proof.
  unfold Qltb; rewrite Qlt_alt.
  destruct (x ?= y)%Q; split; congruence.
Qed.

Lemma Qltb_ge (x y : Q) : Qltb x y = false <-> (y <= x)%Q.
Proof.
  split; intros H.
  - apply Qnot_lt_le; intros Hlt; apply Qltb_lt in Hlt; congruence.
  - destruct (Qltb x y) eqn:E; [ | reflexivity].
    apply Qltb_lt in E; exfalso; exact (Qlt_not_le _ _ E H).
Qed.

Lemma Qltb_asym (x y : Q) : Qltb x y = true -> Qltb y x = false.
Proof.
  intros H; apply Qltb_lt in H; apply Qltb_ge; apply Qlt_le_weak; exact H.
Qed.

(** ** The energy loop *)

Lemma round_exact (z : Z) : 0 <= z <= 2 ^ 53 -> Double.round z = z.
Proof.
  intros Hz; unfold Double.round.
  destruct (Z.ltb_spec z (2 ^ 53)) as [_ | Hge]; [reflexivity | ].
  assert (z = 2 ^ 53) as -> by lia.
  vm_compute; reflexivity.
Qed.

Lemma gint16_of_bytes_range (lo hi : byte) : is_gint16 (gint16_of_bytes lo hi).
Proof.
  unfold is_gint16, gint16_of_bytes.
  pose proof (Byte.to_N_bounded lo); pose proof (Byte.to_N_bounded hi).
  destruct (Z.ltb_spec (Z.of_N (to_N lo) + 256 * Z.of_N (to_N hi)) 32768); lia.
Qed.

(** Induction two bytes at a time, the way [samples] reads them. *)
Lemma bytes_pair_ind (P : list byte -> Prop) :
  P [] -> (forall x, P [x]) ->
  (forall lo hi rest, P rest -> P (lo :: hi :: rest)) ->
  forall l, P l.
Proof.
  intros H0 H1 H2.
  assert (forall l, P l /\ forall x, P (x :: l)) as H.
  { induction l as [ | y l [IH IH']]; split; auto. }
  intros l; apply H.
Qed.

Lemma samples_range (bytes : list byte) : Forall is_gint16 (samples bytes).
Proof.
  induction bytes as [ | x | lo hi rest IH] using bytes_pair_ind; simpl; auto.
  constructor; [apply gint16_of_bytes_range | exact IH].
Qed.

Lemma samples_length (bytes : list byte) :
  Z.of_nat (length (samples bytes)) = Z.of_nat (length bytes) / 2.
Proof.
  induction bytes as [ | x | lo hi rest IH] using bytes_pair_ind.
  - reflexivity.
  - reflexivity.
  - cbn [samples length].
    rewrite !Nat2Z.inj_succ, IH.
    replace (Z.succ (Z.succ (Z.of_nat (length rest))))
      with (Z.of_nat (length rest) + 1 * 2) by lia.
    rewrite Z.div_add by lia; lia.
Qed.

Lemma square_bound (s : Z) : is_gint16 s -> 0 <= s * s <= 2 ^ 30.
Proof. unfold is_gint16; intros H; nia. Qed.



Lemma energy_step_snd (st : Z * Z) (s : Z) :
  is_gint16 s -> snd (energy_step st s) = Z.max (snd st) (s * s).
Proof.
  intros Hs; pose proof (square_bound s Hs).
  unfold energy_step, Double.mul; cbn [snd].
  rewrite (round_exact (s * s)) by lia.
  destruct (Z.ltb_spec (snd st) (s * s)); lia.
Qed.







Lemma normalized_zero : (normalized 0 == 0)%Q.
Proof. reflexivity. Qed.

Lemma normalized_pos (x : Z) : (0 < normalized x)%Q <-> 0 < x.
Proof.
  unfold normalized, Qlt, Qdiv, Qmult, Qinv, inject_Z; simpl.
  rewrite Z.mul_1_r; lia.
Qed.

Lemma ncs_no_samples (b : GstBuffer) :
  samples (data b) = [] -> (ncs b == 0)%Q /\ (nps b == 0)%Q.
Proof.
  intros H; unfold ncs, nps, squaresum, peaksquare; rewrite H.
  split; reflexivity.
Qed.

(** ** C9: the metrics of a buffer *)










(** ** The three conditionals of the chain function *)

Lemma chain_append_yes (ds : GstDeepSpeech) (b : GstBuffer) :
  (silence_threshold ds < ncs b)%Q \/ 0 < gst_buffer_get_size (buf ds) ->
  chain_append ds b = set_buf ds (gst_buffer_append (buf ds) b).
Proof.
  intros H; unfold chain_append.
  destruct H as [H | H].
  - apply Qltb_lt in H; rewrite H; reflexivity.
  - apply Z.ltb_lt in H; rewrite H, orb_true_r; reflexivity.
Qed.

Lemma chain_append_no (ds : GstDeepSpeech) (b : GstBuffer) :
  ~ ((silence_threshold ds < ncs b)%Q \/ 0 < gst_buffer_get_size (buf ds)) ->
  chain_append ds b = ds.
Proof.
  intros H; unfold chain_append.
  destruct (Qltb (silence_threshold ds) (ncs b)) eqn:E1.
  - exfalso; apply H; left; apply Qltb_lt; exact E1.
  - destruct (Z.ltb_spec 0 (gst_buffer_get_size (buf ds))) as [E2 | E2].
    + exfalso; apply H; right; exact E2.
    + reflexivity.
Qed.

Lemma chain_append_config (ds : GstDeepSpeech) (b : GstBuffer) :
  silence_threshold (chain_append ds b) = silence_threshold ds /\
  silence_length (chain_append ds b) = silence_length ds /\
  quiet_bufs (chain_append ds b) = quiet_bufs ds.
Proof.
  unfold chain_append.
  destruct (Qltb _ _ || _); repeat split; reflexivity.
Qed.

Lemma chain_quiet_buf (ds : GstDeepSpeech) (b : GstBuffer) :
  buf (chain_quiet ds b) = buf ds /\
  silence_threshold (chain_quiet ds b) = silence_threshold ds /\
  silence_length (chain_quiet ds b) = silence_length ds.
Proof.
  unfold chain_quiet.
  destruct (Qltb _ _ && _); repeat split; reflexivity.
Qed.

Lemma chain_flush_config (ds : GstDeepSpeech) :
  silence_threshold (fst (chain_flush ds)) = silence_threshold ds /\
  silence_length (fst (chain_flush ds)) = silence_length ds.
Proof.
  unfold chain_flush.
  destruct (_ && _); split; reflexivity.
Qed.

Lemma chain_unfold (ds : GstDeepSpeech) (b : GstBuffer) :
  gst_deepspeech_chain ds b
  = (fst (chain_flush (chain_quiet (chain_append ds b) b)),
     snd (chain_flush (chain_quiet (chain_append ds b) b)) ++ [PadPush b]).
Proof.
  unfold gst_deepspeech_chain.
  destruct (chain_flush (chain_quiet (chain_append ds b) b)); reflexivity.
Qed.

Lemma chain_config (ds : GstDeepSpeech) (b : GstBuffer) :
  silence_threshold (fst (gst_deepspeech_chain ds b)) = silence_threshold ds /\
  silence_length (fst (gst_deepspeech_chain ds b)) = silence_length ds.
Proof.
  rewrite chain_unfold; cbn [fst].
  destruct (chain_flush_config (chain_quiet (chain_append ds b) b)) as [-> ->].
  destruct (chain_quiet_buf (chain_append ds b) b) as (_ & -> & ->).
  destruct (chain_append_config ds b) as (-> & -> & _).
  split; reflexivity.
Qed.

Lemma submitted_app (l1 l2 : list Action) :
  submitted (l1 ++ l2) = submitted l1 ++ submitted l2.
Proof. apply flat_map_app. Qed.

Lemma forwarded_app (l1 l2 : list Action) :
  forwarded (l1 ++ l2) = forwarded l1 ++ forwarded l2.
Proof. apply flat_map_app. Qed.

(** An active buffer has at least one sample, when the threshold is not
    negative. *)
Lemma active_has_samples (ds : GstDeepSpeech) (b : GstBuffer) :
  (0 <= silence_threshold ds)%Q -> is_active ds b = true ->
  2 <= gst_buffer_get_size b.
Proof.
  intros Hthr Hact; unfold is_active in Hact; apply Qltb_lt in Hact.
  unfold gst_buffer_get_size.
  destruct (data b) as [ | lo [ | hi rest]] eqn:E.
  - exfalso.
    assert (ncs b == 0)%Q as H0 by (apply ncs_no_samples; rewrite E; reflexivity).
    rewrite H0 in Hact; exact (Qlt_not_le _ _ Hact Hthr).
  - exfalso.
    assert (ncs b == 0)%Q as H0 by (apply ncs_no_samples; rewrite E; reflexivity).
    rewrite H0 in Hact; exact (Qlt_not_le _ _ Hact Hthr).
  - cbn [length]; lia.
Qed.

(** ** C3: which buffers are appended *)

(** C3: the incoming buffer is appended to the current segment exactly when
    it is active (normalized sum of squares above the threshold) or the
    accumulator is already non-empty: in that case the segment holds the old
    bytes followed by the bytes of the buffer, whether it stays in the
    accumulator or is flushed by this call; otherwise the accumulator is left
    as it was and nothing is submitted.  In particular, once the accumulator
    is non-empty every buffer is appended, whatever its energy. *)
Theorem C3_append_rule (ds : GstDeepSpeech) (b : GstBuffer) :
  let appended := chain_append ds b in
  let after := fst (gst_deepspeech_chain ds b) in
  let sent := submitted (snd (gst_deepspeech_chain ds b)) in
  ((silence_threshold ds < ncs b)%Q \/ 0 < gst_buffer_get_size (buf ds) ->
     data (buf appended) = data (buf ds) ++ data b /\
     ((sent = [] /\ buf after = buf appended) \/
      (sent = [buf appended] /\ buf after = gst_buffer_new))) /\
  (~ ((silence_threshold ds < ncs b)%Q \/ 0 < gst_buffer_get_size (buf ds)) ->
     appended = ds /\ sent = [] /\ buf after = buf ds) /\
  (0 < gst_buffer_get_size (buf ds) ->
     data (buf appended) = data (buf ds) ++ data b) /\
  (data b <> [] ->
     (data (buf appended) = data (buf ds) ++ data b <->
      (silence_threshold ds < ncs b)%Q \/ 0 < gst_buffer_get_size (buf ds))).
Proof.
  intros appended after sent.
  assert ((sent = [] /\ buf after = buf appended) \/
          (sent = [buf appended] /\ buf after = gst_buffer_new)) as Hflush.
  { subst after sent; rewrite chain_unfold; cbn [fst snd].
    rewrite submitted_app; cbn [submitted flat_map app].
    rewrite app_nil_r.
    destruct (chain_quiet_buf (chain_append ds b) b) as (Hb & _).
    unfold chain_flush.
    destruct (_ && _); cbn [fst snd submitted flat_map app].
    - right; rewrite gst_buffer_copy_deep_id, Hb; split; reflexivity.
    - left; rewrite Hb; split; reflexivity. }
  assert ((silence_threshold ds < ncs b)%Q \/ 0 < gst_buffer_get_size (buf ds) ->
          data (buf appended) = data (buf ds) ++ data b) as Hyes.
  { intros H; subst appended; rewrite chain_append_yes by exact H; reflexivity. }
  assert (~ ((silence_threshold ds < ncs b)%Q \/ 0 < gst_buffer_get_size (buf ds)) ->
          appended = ds) as Hno.
  { intros H; subst appended; apply chain_append_no; exact H. }
  split; [ | split; [ | split]].
  - intros H; split; [apply Hyes; exact H | exact Hflush].
  - intros H; pose proof (Hno H) as Heq.
    assert (gst_buffer_get_size (buf ds) <= 0) as Hempty.
    { apply Z.nlt_ge; intros Hlt; apply H; right; exact Hlt. }
    split; [exact Heq | ].
    subst after sent; rewrite chain_unfold; cbn [fst snd].
    fold appended; rewrite Heq.
    rewrite submitted_app; cbn [submitted flat_map app]; rewrite app_nil_r.
    destruct (chain_quiet_buf ds b) as (Hb & _).
    unfold chain_flush; rewrite Hb.
    destruct (Z.ltb_spec 0 (gst_buffer_get_size (buf ds))); [lia | ].
    rewrite andb_false_r; cbn [fst snd submitted flat_map].
    split; [reflexivity | exact Hb].
  - intros H; apply Hyes; right; exact H.
  - intros Hne; split; [ | exact Hyes].
    intros Happ.
    destruct (Qlt_le_dec (silence_threshold ds) (ncs b)) as [Hlt | Hle];
      [left; exact Hlt | ].
    destruct (Z_lt_le_dec 0 (gst_buffer_get_size (buf ds))) as [Hs | Hs];
      [right; exact Hs | ].
    exfalso.
    rewrite Hno in Happ.
    + apply Hne.
      apply (app_inv_head (data (buf ds))); rewrite app_nil_r; symmetry; exact Happ.
    + intros [H | H]; [exact (Qlt_not_le _ _ H Hle) | lia].
Qed.

Lemma C3_append_rule_witness :
  data (buf (chain_append ds_quarter_started b_quarter))
  = data (buf ds_quarter_started) ++ data b_quarter.
Proof.
  assert (0 < gst_buffer_get_size (buf ds_quarter_started)) as H
    by (vm_compute; reflexivity).
  exact (proj1 (proj2 (proj2 (C3_append_rule ds_quarter_started b_quarter))) H).
Defined.

(** ** The silence gate *)

Lemma chain_gate_invariant (ds : GstDeepSpeech) (b : GstBuffer) :
  0 <= silence_length ds -> gate_invariant (fst (gst_deepspeech_chain ds b)).
Proof.
  intros Hlen; rewrite chain_unfold; cbn [fst].
  destruct (chain_append_config ds b) as (_ & Hl & _).
  set (ds1 := chain_append ds b) in *; clearbody ds1.
  unfold chain_quiet.
  destruct (Qltb (ncs b) (silence_threshold ds1) &&
            (0 <? gst_buffer_get_size (buf ds1))) eqn:Hq.
  - apply andb_prop in Hq; destruct Hq as [_ Hs]; apply Z.ltb_lt in Hs.
    pose proof (Z.mod_pos_bound (quiet_bufs ds1 + 1) (2 ^ 32) ltac:(lia)) as Hm.
    unfold chain_flush; cbn [silence_length quiet_bufs buf set_quiet_bufs].
    destruct (Z.ltb_spec (silence_length ds1)
                         ((quiet_bufs ds1 + 1) mod 2 ^ 32)) as [Hf | Hf].
    + apply Z.ltb_lt in Hs; rewrite Hs; cbn [andb fst].
      unfold gate_invariant; cbn; lia.
    + cbn [andb fst]; unfold gate_invariant;
        cbn [silence_length quiet_bufs buf set_quiet_bufs].
      split; [lia | intros _; exact Hs].
  - unfold chain_flush; cbn [silence_length quiet_bufs buf set_quiet_bufs].
    destruct (Z.ltb_spec (silence_length ds1) 0) as [Hf | Hf]; [lia | ].
    cbn [andb fst]; unfold gate_invariant; cbn; lia.
Qed.

Lemma default_config_valid : valid_config gst_deepspeech_init.
Proof.
  unfold valid_config, gst_deepspeech_init;
    cbn [silence_threshold silence_length].
  split; [vm_compute; discriminate | ].
  split; [vm_compute; discriminate | ].
  unfold DEFAULT_SILENCE_LENGTH, G_MAXINT; lia.
Qed.

(** In every state an element reaches, the properties are inside their
    ranges and the counter is inside the range of [silence-length]. *)
Lemma reachable_range (ds : GstDeepSpeech) :
  reachable ds -> valid_config ds /\ 0 <= quiet_bufs ds <= G_MAXINT.
Proof.
  induction 1 as [ | ds c Hr [Hv Hq] Hc].
  - split; [exact default_config_valid | ].
    unfold gst_deepspeech_init, G_MAXINT; cbn [quiet_bufs]; lia.
  - destruct c as [b | e | v | v]; cbn [call valid_call] in *.
    + destruct (chain_config ds b) as [Ht Hl].
      destruct Hv as (H0 & H1 & H2).
      destruct (chain_gate_invariant ds b ltac:(lia)) as [Hg _].
      unfold valid_config; rewrite Ht, Hl.
      split; [auto | lia].
    + destruct e; cbn [gst_deepspeech_sink_event fst]; split; assumption.
    + cbn [fst]; destruct Hv as (_ & _ & H2); destruct Hc as [Hc0 Hc1].
      unfold valid_config, set_silence_threshold;
        cbn [silence_threshold silence_length quiet_bufs].
      split; [split; [exact Hc0 | split; [exact Hc1 | exact H2]] | exact Hq].
    + cbn [fst]; destruct Hv as (H0 & H1 & _).
      unfold valid_config, set_silence_length;
        cbn [silence_threshold silence_length quiet_bufs].
      split; [split; [exact H0 | split; [exact H1 | exact Hc]] | exact Hq].
Qed.

(** ** C4: the quiet-run update *)

Lemma ds_quarter_started_reachable : reachable ds_quarter_started.
Proof.
  change (reachable
            (fst (call (fst (call ds_quarter (CallChain b_loud)))
                       (CallChain b_silent)))).
  unfold ds_quarter.
  apply (reachable_call _ (CallChain b_silent)); [ | exact I].
  apply (reachable_call _ (CallChain b_loud)); [ | exact I].
  apply (reachable_call _ (CallSetLength 1));
    [ | cbn; unfold G_MAXINT; lia].
  apply (reachable_call _ (CallSetThreshold (1 # 4)));
    [ | cbn; unfold Qle; cbn; lia].
  apply reachable_init.
Qed.

(** C4 as stated fails at the threshold itself: with
    [silence-threshold=0.25], a non-empty accumulator and a counter of 1, a
    buffer whose normalized sum of squares is exactly 0.25 is not active, yet
    the counter is not incremented to 2: it is cleared. *)
Lemma C4_at_threshold_counterexample :
  is_active ds_quarter_started b_quarter = false /\
  accumulator_nonempty ds_quarter_started = true /\
  quiet_bufs ds_quarter_started = 1 /\
  quiet_bufs (chain_quiet (chain_append ds_quarter_started b_quarter) b_quarter)
  <> quiet_bufs ds_quarter_started + 1.
Proof. repeat split; vm_compute; congruence. Qed.

(** C4 (amended): for every incoming buffer, if its normalized sum of
    squares is strictly below [silence_threshold] and the accumulator is
    non-empty, the quiet-run counter is incremented by exactly 1; in every
    other case (normalized sum of squares at or above the threshold, or
    accumulator empty) it is reset to 0. *)
Theorem C4_quiet_update (ds : GstDeepSpeech) (b : GstBuffer) :
  reachable ds ->
  let updated := chain_quiet (chain_append ds b) b in
  ((ncs b < silence_threshold ds)%Q /\ 0 < gst_buffer_get_size (buf ds) ->
     quiet_bufs updated = quiet_bufs ds + 1) /\
  ((silence_threshold ds <= ncs b)%Q \/ gst_buffer_get_size (buf ds) = 0 ->
     quiet_bufs updated = 0).
Proof.
  intros Hr updated; subst updated.
  destruct (reachable_range ds Hr) as [_ Hq].
  destruct (chain_append_config ds b) as (Ht & _ & Hqb).
  split.
  - intros [Hlt Hs].
    rewrite chain_append_yes by (right; exact Hs).
    unfold chain_quiet; cbn [silence_threshold buf set_buf quiet_bufs].
    apply Qltb_lt in Hlt; rewrite Hlt.
    rewrite gst_buffer_append_size.
    pose proof (gst_buffer_get_size_nonneg b).
    destruct (Z.ltb_spec 0 (gst_buffer_get_size (buf ds) + gst_buffer_get_size b));
      [ | lia].
    cbn [andb quiet_bufs set_quiet_bufs].
    apply Z.mod_small; unfold G_MAXINT in Hq; lia.
  - intros H.
    unfold chain_quiet; rewrite Ht.
    destruct (Qltb (ncs b) (silence_threshold ds)) eqn:E; [ | reflexivity].
    destruct H as [H | H].
    + apply Qltb_ge in H; congruence.
    + rewrite chain_append_no.
      * destruct (Z.ltb_spec 0 (gst_buffer_get_size (buf ds))); [lia | ].
        reflexivity.
      * apply Qltb_lt in E.
        intros [Ha | Ha]; [ | lia].
        exact (Qlt_irrefl _ (Qlt_trans _ _ _ E Ha)).
Qed.

Lemma C4_quiet_update_witness :
  quiet_bufs (chain_quiet (chain_append ds_quarter_started b_silent') b_silent')
  = quiet_bufs ds_quarter_started + 1.
Proof.
  apply (C4_quiet_update ds_quarter_started b_silent'
           ds_quarter_started_reachable).
  split; vm_compute; reflexivity.
Defined.

(** ** C2: when a segment is flushed *)

Lemma chain_flush_yes (ds : GstDeepSpeech) :
  silence_length ds < quiet_bufs ds /\ 0 < gst_buffer_get_size (buf ds) ->
  chain_flush ds
  = (set_quiet_bufs (set_buf ds gst_buffer_new) 0, [ThreadPoolPush (buf ds)]).
Proof.
  intros [Hq Hs]; unfold chain_flush.
  apply Z.ltb_lt in Hq; apply Z.ltb_lt in Hs; rewrite Hq, Hs.
  rewrite gst_buffer_copy_deep_id; reflexivity.
Qed.

Lemma chain_flush_no (ds : GstDeepSpeech) :
  ~ (silence_length ds < quiet_bufs ds /\ 0 < gst_buffer_get_size (buf ds)) ->
  chain_flush ds = (ds, []).
Proof.
  intros H; unfold chain_flush.
  destruct (Z.ltb_spec (silence_length ds) (quiet_bufs ds)) as [Hq | Hq];
    [ | reflexivity].
  destruct (Z.ltb_spec 0 (gst_buffer_get_size (buf ds))) as [Hs | Hs];
    [ | reflexivity].
  exfalso; apply H; split; assumption.
Qed.

(** One call on an active buffer: appended, counter cleared, no flush. *)
Lemma chain_active (thr : Q) (len q : Z) (acc b : GstBuffer) :
  0 <= len -> Qltb thr (ncs b) = true ->
  gst_deepspeech_chain (mkDeepSpeech thr len q acc) b
  = (mkDeepSpeech thr len 0 (gst_buffer_append acc b), [PadPush b]).
Proof.
  intros Hlen Hact.
  unfold gst_deepspeech_chain, chain_append;
    cbn [silence_threshold buf]; rewrite Hact; cbn [orb].
  unfold chain_quiet; cbn [silence_threshold buf set_buf].
  rewrite (Qltb_asym _ _ Hact); cbn [andb].
  unfold chain_flush; cbn [silence_length quiet_bufs set_quiet_bufs set_buf].
  destruct (Z.ltb_spec len 0); [lia | reflexivity].
Qed.

(** One call on a buffer strictly below the threshold, accumulator
    non-empty: appended and counted; flushed when the count passes
    [silence_length]. *)
Lemma chain_below (thr : Q) (len q : Z) (acc b : GstBuffer) :
  Qltb (ncs b) thr = true -> 0 < gst_buffer_get_size acc ->
  0 <= q < G_MAXUINT32 ->
  gst_deepspeech_chain (mkDeepSpeech thr len q acc) b
  = if len <? q + 1
    then (mkDeepSpeech thr len 0 gst_buffer_new,
          [ThreadPoolPush (gst_buffer_append acc b); PadPush b])
    else (mkDeepSpeech thr len (q + 1) (gst_buffer_append acc b), [PadPush b]).
Proof.
  intros Hlow Hacc Hq.
  assert (0 < gst_buffer_get_size (gst_buffer_append acc b)) as Happ.
  { rewrite gst_buffer_append_size; pose proof (gst_buffer_get_size_nonneg b); lia. }
  apply Z.ltb_lt in Hacc, Happ.
  unfold gst_deepspeech_chain, chain_append;
    cbn [silence_threshold buf]; rewrite Hacc, orb_true_r.
  unfold chain_quiet; cbn [silence_threshold buf set_buf quiet_bufs].
  rewrite Hlow, Happ; cbn [andb].
  rewrite Z.mod_small by (unfold G_MAXUINT32 in Hq; lia).
  unfold chain_flush;
    cbn [silence_length quiet_bufs buf set_quiet_bufs set_buf silence_threshold].
  rewrite Happ, andb_true_r, gst_buffer_copy_deep_id.
  destruct (len <? q + 1); reflexivity.
Qed.

Lemma active_stream (thr : Q) (len : Z) (bs : list GstBuffer) :
  0 <= len -> Forall (fun b => Qltb thr (ncs b) = true) bs ->
  forall acc,
    chain_stream (mkDeepSpeech thr len 0 acc) bs
    = (mkDeepSpeech thr len 0 (fold_left gst_buffer_append bs acc),
       map PadPush bs).
Proof.
  intros Hlen Hbs; induction Hbs as [ | b bs Hb _ IH]; intros acc.
  - reflexivity.
  - cbn [chain_stream fold_left map].
    rewrite chain_active by assumption.
    rewrite IH; reflexivity.
Qed.

Lemma fold_append_size (bs : list GstBuffer) (acc : GstBuffer) :
  0 < gst_buffer_get_size acc ->
  0 < gst_buffer_get_size (fold_left gst_buffer_append bs acc).
Proof.
  revert acc; induction bs as [ | b bs IH]; intros acc H; cbn [fold_left].
  - exact H.
  - apply IH; rewrite gst_buffer_append_size.
    pose proof (gst_buffer_get_size_nonneg b); lia.
Qed.

Lemma submitted_map_PadPush (bs : list GstBuffer) :
  submitted (map PadPush bs) = [].
Proof. induction bs as [ | b bs IH]; [reflexivity | exact IH]. Qed.

Lemma forwarded_map_PadPush (bs : list GstBuffer) :
  forwarded (map PadPush bs) = bs.
Proof.
  induction bs as [ | b bs IH]; [reflexivity | ].
  cbn [map forwarded flat_map app]; fold (forwarded (map PadPush bs)).
  rewrite IH; reflexivity.
Qed.

(** A run of buffers strictly below the threshold that ends exactly when
    the counter passes [silence_length]: one flush, at the last buffer, of
    everything accumulated. *)
Lemma below_stream (thr : Q) (len : Z) (bs : list GstBuffer) :
  len <= G_MAXINT ->
  Forall (fun b => Qltb (ncs b) thr = true) bs ->
  forall q acc,
    0 < gst_buffer_get_size acc -> 0 <= q ->
    q + Z.of_nat (length bs) = len + 1 -> bs <> [] ->
    fst (chain_stream (mkDeepSpeech thr len q acc) bs)
    = mkDeepSpeech thr len 0 gst_buffer_new /\
    submitted (snd (chain_stream (mkDeepSpeech thr len q acc) bs))
    = [fold_left gst_buffer_append bs acc].
Proof.
  intros Hmax Hbs; induction Hbs as [ | b bs Hb Hrest IH];
    intros q acc Hacc Hq Hlen Hne; [congruence | ].
  cbn [chain_stream fold_left].
  change (length (b :: bs)) with (S (length bs)) in Hlen.
  rewrite chain_below
    by (try assumption; unfold G_MAXUINT32, G_MAXINT in *; lia).
  destruct bs as [ | b' bs'].
  - cbn [length] in Hlen.
    destruct (Z.ltb_spec len (q + 1)); [ | lia].
    cbn [chain_stream fst snd app fold_left submitted flat_map].
    split; reflexivity.
  - change (length (b' :: bs')) with (S (length bs')) in Hlen.
    destruct (Z.ltb_spec len (q + 1)); [lia | ].
    assert (0 < gst_buffer_get_size (gst_buffer_append acc b)) as Happ.
    { rewrite gst_buffer_append_size; pose proof (gst_buffer_get_size_nonneg b); lia. }
    specialize (IH (q + 1) (gst_buffer_append acc b) Happ ltac:(lia)).
    change (length (b' :: bs')) with (S (length bs')) in IH.
    specialize (IH ltac:(lia) ltac:(discriminate)).
    destruct (chain_stream
                (mkDeepSpeech thr len (q + 1) (gst_buffer_append acc b))
                (b' :: bs')) as [ds2 acts2].
    cbn [fst snd] in *.
    destruct IH as [IH1 IH2]; split; [exact IH1 | ].
    cbn [app submitted flat_map]; exact IH2.
Qed.

Lemma chain_stream_app (ds : GstDeepSpeech) (bs1 bs2 : list GstBuffer) :
  chain_stream ds (bs1 ++ bs2)
  = (fst (chain_stream (fst (chain_stream ds bs1)) bs2),
     snd (chain_stream ds bs1)
     ++ snd (chain_stream (fst (chain_stream ds bs1)) bs2)).
Proof.
  revert ds; induction bs1 as [ | b bs1 IH]; intros ds.
  - cbn [app chain_stream fst snd].
    destruct (chain_stream ds bs2); reflexivity.
  - cbn [app chain_stream].
    destruct (gst_deepspeech_chain ds b) as [ds1 acts1].
    rewrite IH.
    destruct (chain_stream ds1 bs1) as [ds2 acts2]; cbn [fst snd].
    rewrite app_assoc; reflexivity.
Qed.

(** C2 as stated fails in its last sentence.  A buffer whose normalized
    sum of squares equals the threshold is inactive but is not counted as
    quiet: with [silence-threshold=0.25] and [silence-length=1], one active
    buffer followed by [silence_length + 1 = 2] such inactive buffers gives
    no flush at all.  And with no active buffer at all ([N = 0]) the
    accumulator of a fresh element stays empty: six silent buffers under the
    default [silence-length=5] give no flush either. *)
Lemma C2_inactive_run_counterexample :
  (Forall (fun b => is_active ds_quarter b = true) [b_loud] /\
   Forall (fun b => is_active ds_quarter b = false) [b_quarter; b_quarter] /\
   Z.of_nat (length [b_quarter; b_quarter]) = silence_length ds_quarter + 1 /\
   length (submitted
             (snd (chain_stream ds_quarter
                     ([b_loud] ++ [b_quarter; b_quarter]))))
   <> 1%nat) /\
  (Forall (fun b => is_active gst_deepspeech_init b = false)
          (repeat b_silent 6) /\
   Z.of_nat (length (repeat b_silent 6))
   = silence_length gst_deepspeech_init + 1 /\
   length (submitted
             (snd (chain_stream gst_deepspeech_init
                     ([] ++ repeat b_silent 6))))
   <> 1%nat).
Proof.
  split.
  - split; [repeat constructor | ].
    split; [repeat constructor | ].
    split; [reflexivity | ].
    vm_compute; discriminate.
  - split; [repeat constructor | ].
    split; [reflexivity | ].
    vm_compute; discriminate.
Qed.

(** C2 (amended): for every processed buffer, a flush occurs if and only
    if, after the quiet-run update, [quiet_bufs] exceeds [silence_length] and
    the accumulator is non-empty; the flush submits the accumulated segment
    to the pool exactly once, resets [quiet_bufs] to 0 and replaces the
    accumulator with a fresh empty buffer; without it nothing is submitted
    and the state is the one after the update.  In particular, for a
    sequence of [N >= 1] consecutive active buffers followed by exactly
    [silence_length + 1] buffers whose normalized sum of squares is strictly
    below the threshold, exactly one flush occurs: it submits everything
    accumulated and leaves the counter at 0 and the accumulator empty. *)
Theorem C2_flush_rule (ds : GstDeepSpeech) :
  (forall b,
     let updated := chain_quiet (chain_append ds b) b in
     let after := fst (gst_deepspeech_chain ds b) in
     let sent := submitted (snd (gst_deepspeech_chain ds b)) in
     (silence_length ds < quiet_bufs updated /\
      0 < gst_buffer_get_size (buf updated) ->
        sent = [buf updated] /\ quiet_bufs after = 0 /\
        buf after = gst_buffer_new) /\
     (~ (silence_length ds < quiet_bufs updated /\
         0 < gst_buffer_get_size (buf updated)) ->
        sent = [] /\ after = updated)) /\
  (forall actives quiets,
     valid_config ds -> actives <> [] ->
     Forall (fun b => is_active ds b = true) actives ->
     Forall (fun b => (ncs b < silence_threshold ds)%Q) quiets ->
     Z.of_nat (length quiets) = silence_length ds + 1 ->
     let after := fst (chain_stream ds (actives ++ quiets)) in
     let sent := submitted (snd (chain_stream ds (actives ++ quiets))) in
     sent = [fold_left gst_buffer_append (actives ++ quiets) (buf ds)] /\
     quiet_bufs after = 0 /\ buf after = gst_buffer_new).
Proof.
  split.
  - intros b updated after sent; subst after sent.
    rewrite chain_unfold; fold updated; cbn [fst snd].
    rewrite submitted_app; cbn [submitted flat_map app]; rewrite app_nil_r.
    destruct (chain_quiet_buf (chain_append ds b) b) as (_ & _ & Hl).
    destruct (chain_append_config ds b) as (_ & Hl' & _).
    fold updated in Hl; rewrite <- Hl', <- Hl.
    split; intros H.
    + rewrite chain_flush_yes by exact H.
      cbn [fst snd submitted flat_map app]; repeat split; reflexivity.
    + rewrite chain_flush_no by exact H.
      cbn [fst snd submitted flat_map]; split; reflexivity.
  - intros actives quiets (Hthr & _ & Hlen0 & Hlen1) Hne Hact Hlow Hcount
           after sent; subst after sent.
    destruct ds as [thr len q acc];
      cbn [silence_threshold silence_length buf] in *.
    destruct actives as [ | a actives]; [congruence | ].
    inversion Hact as [ | ? ? Ha Hacts]; subst.
    assert (0 < gst_buffer_get_size (gst_buffer_append acc a)) as Hsize.
    { rewrite gst_buffer_append_size.
      pose proof (active_has_samples (mkDeepSpeech thr len q acc) a Hthr Ha).
      pose proof (gst_buffer_get_size_nonneg acc); lia. }
    unfold is_active in Ha, Hacts; cbn [silence_threshold] in Ha, Hacts.
    assert (chain_stream (mkDeepSpeech thr len q acc) (a :: actives)
            = (mkDeepSpeech thr len 0
                 (fold_left gst_buffer_append (a :: actives) acc),
               map PadPush (a :: actives))) as Hfirst.
    { cbn [chain_stream]; rewrite chain_active by assumption.
      rewrite active_stream by assumption; reflexivity. }
    rewrite chain_stream_app, Hfirst; cbn [fst snd].
    rewrite submitted_app, submitted_map_PadPush; cbn [app].
    assert (Forall (fun b => Qltb (ncs b) thr = true) quiets) as Hlow'.
    { eapply Forall_impl; [ | exact Hlow].
      intros b Hb; apply Qltb_lt; exact Hb. }
    assert (quiets <> []) as Hq.
    { intros ->; cbn in Hcount; lia. }
    destruct (below_stream thr len quiets Hlen1 Hlow' 0
                (fold_left gst_buffer_append (a :: actives) acc))
      as [Hst Hsub]; try assumption; try lia.
    { cbn [fold_left]; apply fold_append_size; exact Hsize. }
    rewrite Hst, Hsub, app_comm_cons, fold_left_app; cbn [quiet_bufs buf].
    repeat split; reflexivity.
Qed.

Lemma C2_flush_rule_witness :
  submitted (snd (chain_stream ds_quarter ([b_loud] ++ [b_silent; b_silent'])))
  = [fold_left gst_buffer_append ([b_loud] ++ [b_silent; b_silent'])
       (buf ds_quarter)].
Proof.
  apply (proj2 (C2_flush_rule ds_quarter) [b_loud] [b_silent; b_silent']).
  - unfold valid_config; cbn [ds_quarter silence_threshold silence_length
                               set_silence_length set_silence_threshold].
    split; [vm_compute; discriminate | ].
    split; [vm_compute; discriminate | ].
    unfold G_MAXINT; lia.
  - discriminate.
  - repeat constructor.
  - repeat constructor.
  - reflexivity.
Defined.

(** ** C10: the invariant of the silence gate *)

Lemma chain_stream_config (bs : list GstBuffer) (ds : GstDeepSpeech) :
  silence_threshold (fst (chain_stream ds bs)) = silence_threshold ds /\
  silence_length (fst (chain_stream ds bs)) = silence_length ds.
Proof.
  revert ds; induction bs as [ | b bs IH]; intros ds; cbn [chain_stream].
  - split; reflexivity.
  - destruct (chain_config ds b) as [Ht Hl].
    destruct (gst_deepspeech_chain ds b) as [ds1 acts1]; cbn [fst] in *.
    destruct (IH ds1) as [Ht' Hl'].
    destruct (chain_stream ds1 bs) as [ds2 acts2]; cbn [fst] in *.
    split; congruence.
Qed.

Lemma chain_stream_gate_invariant (bs : list GstBuffer) (ds : GstDeepSpeech) :
  0 <= silence_length ds -> gate_invariant ds ->
  gate_invariant (fst (chain_stream ds bs)).
Proof.
  revert ds; induction bs as [ | b bs IH]; intros ds Hlen Hinv;
    cbn [chain_stream].
  - exact Hinv.
  - pose proof (chain_gate_invariant ds b Hlen) as Hstep.
    destruct (chain_config ds b) as [_ Hl].
    destruct (gst_deepspeech_chain ds b) as [ds1 acts1]; cbn [fst] in *.
    specialize (IH ds1 ltac:(lia) Hstep).
    destruct (chain_stream ds1 bs) as [ds2 acts2]; exact IH.
Qed.

(** C10: after every call of the chain function the counter is at most
    [silence_length], and a positive counter implies a non-empty
    accumulator; the handling of end-of-stream (of any sink event) keeps
    both; they hold in the initial state and all along a stream. *)
Theorem C10_gate_invariant (ds : GstDeepSpeech) :
  valid_config ds ->
  (forall b,
     quiet_bufs (fst (gst_deepspeech_chain ds b)) <= silence_length ds /\
     (0 < quiet_bufs (fst (gst_deepspeech_chain ds b)) ->
      0 < gst_buffer_get_size (buf (fst (gst_deepspeech_chain ds b)))) /\
     gate_invariant (fst (gst_deepspeech_chain ds b))) /\
  (forall e,
     gate_invariant ds -> gate_invariant (fst (gst_deepspeech_sink_event ds e))) /\
  (forall bs,
     gate_invariant ds -> gate_invariant (fst (chain_stream ds bs))) /\
  gate_invariant gst_deepspeech_init.
Proof.
  intros (_ & _ & Hlen & _).
  split; [ | split; [ | split]].
  - intros b.
    pose proof (chain_gate_invariant ds b Hlen) as Hinv.
    destruct (chain_config ds b) as [_ Hl].
    destruct Hinv as [Hq Hne]; rewrite Hl in Hq.
    split; [lia | ].
    split; [exact Hne | ].
    split; [rewrite Hl; exact Hq | exact Hne].
  - intros e Hinv; destruct e; exact Hinv.
  - intros bs Hinv; apply chain_stream_gate_invariant; assumption.
  - unfold gate_invariant, gst_deepspeech_init, DEFAULT_SILENCE_LENGTH;
      cbn [quiet_bufs silence_length buf]; lia.
Qed.

Lemma C10_gate_invariant_witness :
  valid_config gst_deepspeech_init /\
  quiet_bufs (fst (gst_deepspeech_chain gst_deepspeech_init b_loud))
  <= silence_length gst_deepspeech_init.
Proof.
  split; [exact default_config_valid | ].
  exact (proj1 (proj1 (C10_gate_invariant gst_deepspeech_init
                         default_config_valid) b_loud)).
Defined.

(** ** C8: pass-through *)

Lemma chain_forwarded (ds : GstDeepSpeech) (b : GstBuffer) :
  forwarded (snd (gst_deepspeech_chain ds b)) = [b].
Proof.
  rewrite chain_unfold; cbn [snd]; rewrite forwarded_app.
  unfold chain_flush; destruct (_ && _); reflexivity.
Qed.


(** ** C6: end of stream *)

(** C6: on [GST_EVENT_EOS] with a non-empty accumulator the element pushes
    the accumulated segment to the pool exactly once, then frees the pool
    ([g_thread_pool_free] with [immediate = FALSE] and [wait = TRUE]), and
    only then forwards the event; with an empty accumulator it submits
    nothing, frees the pool and forwards the event. *)
Theorem C6_end_of_stream (ds : GstDeepSpeech) :
  (0 < gst_buffer_get_size (buf ds) ->
     snd (gst_deepspeech_sink_event ds GST_EVENT_EOS)
     = [ThreadPoolPush (buf ds); ThreadPoolFree; PadEventDefault GST_EVENT_EOS]
     /\ submitted (snd (gst_deepspeech_sink_event ds GST_EVENT_EOS)) = [buf ds]) /\
  (gst_buffer_get_size (buf ds) = 0 ->
     snd (gst_deepspeech_sink_event ds GST_EVENT_EOS)
     = [ThreadPoolFree; PadEventDefault GST_EVENT_EOS]
     /\ submitted (snd (gst_deepspeech_sink_event ds GST_EVENT_EOS)) = []).
Proof.
  unfold gst_deepspeech_sink_event; cbn [snd].
  split; intros H.
  - apply Z.ltb_lt in H; rewrite H, gst_buffer_copy_deep_id.
    split; reflexivity.
  - rewrite H; split; reflexivity.
Qed.

Lemma C6_end_of_stream_witness :
  snd (gst_deepspeech_sink_event ds_quarter_started GST_EVENT_EOS)
  = [ThreadPoolPush (buf ds_quarter_started); ThreadPoolFree;
     PadEventDefault GST_EVENT_EOS] /\
  snd (gst_deepspeech_sink_event gst_deepspeech_init GST_EVENT_EOS)
  = [ThreadPoolFree; PadEventDefault GST_EVENT_EOS].
Proof.
  split.
  - apply (proj1 (C6_end_of_stream ds_quarter_started)).
    vm_compute; reflexivity.
  - apply (proj2 (C6_end_of_stream gst_deepspeech_init)).
    reflexivity.
Defined.

(** ** C1: the times of a message *)

Section WorkerFacts.

Variable infer : list byte -> string.
Variable segment_to_running_time : GstClockTime -> GstClockTime.
Variable segment_to_stream_time : GstClockTime -> GstClockTime.

(** The accumulator of a reachable instance never carries a timestamp or
    a duration: it starts as [gst_buffer_new ()] and [gst_buffer_append]
    keeps the times of its first argument. *)
Lemma accumulator_times (ds : GstDeepSpeech) :
  reachable ds ->
  timestamp (buf ds) = GST_CLOCK_TIME_NONE /\
  duration (buf ds) = GST_CLOCK_TIME_NONE.
Proof.
  induction 1 as [ | ds c Hr [Ht Hd] Hc].
  - split; reflexivity.
  - destruct c as [b | e | v | v]; cbn [call].
    + rewrite chain_unfold; cbn [fst].
      destruct (chain_quiet_buf (chain_append ds b) b) as (Hb & _).
      unfold chain_flush; destruct (_ && _); cbn [fst buf set_quiet_bufs set_buf].
      * split; reflexivity.
      * rewrite Hb; unfold chain_append; destruct (_ || _); cbn; auto.
    + destruct e; cbn; auto.
    + cbn; auto.
    + cbn; auto.
Qed.

Lemma submitted_times (ds : GstDeepSpeech) (c : Call) (seg : GstBuffer) :
  reachable ds -> In seg (submitted (snd (call ds c))) ->
  timestamp seg = GST_CLOCK_TIME_NONE /\ duration seg = GST_CLOCK_TIME_NONE.
Proof.
  intros Hr Hin; destruct (accumulator_times ds Hr) as [Ht Hd].
  destruct c as [b | e | v | v]; cbn [call] in Hin.
  - rewrite chain_unfold in Hin; cbn [snd] in Hin.
    rewrite submitted_app in Hin; cbn [submitted flat_map app] in Hin.
    rewrite app_nil_r in Hin.
    destruct (chain_quiet_buf (chain_append ds b) b) as (Hb & _).
    unfold chain_flush in Hin; destruct (_ && _);
      cbn [snd submitted flat_map app] in Hin; [ | contradiction].
    destruct Hin as [<- | []].
    rewrite gst_buffer_copy_deep_id, Hb.
    unfold chain_append; destruct (_ || _); cbn; auto.
  - destruct e; cbn in Hin; try contradiction.
    destruct (0 <? _); cbn in Hin; [ | contradiction].
    destruct Hin as [<- | []]; rewrite gst_buffer_copy_deep_id; auto.
  - contradiction.
  - contradiction.
Qed.

(** Every message an element ever posts has [GST_CLOCK_TIME_NONE] as its
    timestamp and as its duration. *)
Lemma message_times (ds : GstDeepSpeech) (c : Call) (msg : GstMessage) :
  reachable ds ->
  In msg (recognise infer segment_to_running_time segment_to_stream_time
            (snd (call ds c))) ->
  msg_timestamp msg = GST_CLOCK_TIME_NONE /\
  msg_duration msg = GST_CLOCK_TIME_NONE.
Proof.
  intros Hr Hin; unfold recognise in Hin.
  apply in_flat_map in Hin; destruct Hin as (seg & Hseg & Hmsg).
  destruct (submitted_times ds c seg Hr Hseg) as [Ht Hd].
  unfold run_model_async, post_result in Hmsg.
  destruct (0 <? _)%nat; [ | contradiction].
  destruct Hmsg as [<- | []]; cbn; auto.
Qed.

End WorkerFacts.

(** C1 on the stream of the specification: a loud buffer at 0 ms, a silent
    one inside the run limit and a silent one past it, 20 ms each, with
    [silence-length=1].  One segment is flushed and recognised as one
    letter; the message posted for it carries [GST_CLOCK_TIME_NONE] as
    timestamp and as duration, not the timestamp 0 and the duration of
    20 ms of the first buffer of the segment. *)
Theorem C1_first_buffer_times_lost :
  let acts := snd (chain_stream ds_length_one [b_loud; b_silent; b_silent']) in
  submitted acts
  = [fold_left gst_buffer_append [b_loud; b_silent; b_silent'] gst_buffer_new] /\
  recognise infer_a position_time position_time acts
  = [{| msg_timestamp    := GST_CLOCK_TIME_NONE;
        msg_stream_time  := GST_CLOCK_TIME_NONE;
        msg_running_time := GST_CLOCK_TIME_NONE;
        msg_duration     := GST_CLOCK_TIME_NONE;
        msg_text         := "a" |}] /\
  timestamp b_loud = 0 /\ duration b_loud = 20000000 /\
  GST_CLOCK_TIME_NONE <> timestamp b_loud /\
  GST_CLOCK_TIME_NONE <> duration b_loud.
Proof.
  cbv zeta.
  split; [vm_compute; reflexivity | ].
  split; [vm_compute; reflexivity | ].
  split; [reflexivity | ].
  split; [reflexivity | ].
  split; vm_compute; discriminate.
Qed.

(** ** C7 and C5: the workers of the pool *)

Lemma inference_count_app (ws1 ws2 : list Worker) :
  inference_count (ws1 ++ ws2)
  = (inference_count ws1 + inference_count ws2)%nat.
Proof.
  unfold inference_count; rewrite filter_app, length_app; reflexivity.
Qed.

Lemma inference_count_cons (w : Worker) (ws : list Worker) :
  inference_count (w :: ws)
  = ((if in_inference w then 1 else 0) + inference_count ws)%nat.
Proof.
  unfold inference_count; cbn [filter].
  destruct (in_inference w); reflexivity.
Qed.

Lemma inference_count_in (w : Worker) (ws : list Worker) :
  In w ws -> in_inference w = true -> (1 <= inference_count ws)%nat.
Proof.
  induction ws as [ | w' ws IH]; intros Hin Hw; [contradiction | ].
  rewrite inference_count_cons.
  destruct Hin as [-> | Hin].
  - rewrite Hw; lia.
  - specialize (IH Hin Hw); lia.
Qed.

(** With at most one worker inside, two positions that are inside are the
    same position. *)
Lemma inference_count_unique (ws : list Worker) :
  (inference_count ws <= 1)%nat ->
  forall i j wi wj,
    nth_error ws i = Some wi -> nth_error ws j = Some wj ->
    in_inference wi = true -> in_inference wj = true -> i = j.
Proof.
  induction ws as [ | w ws IH]; intros Hc i j wi wj Hi Hj Hwi Hwj.
  - destruct i; discriminate.
  - rewrite inference_count_cons in Hc.
    destruct i as [ | i], j as [ | j]; cbn [nth_error] in Hi, Hj.
    + reflexivity.
    + exfalso; injection Hi as ->; rewrite Hwi in Hc.
      pose proof (inference_count_in wj ws (nth_error_In _ _ Hj) Hwj); lia.
    + exfalso; injection Hj as ->; rewrite Hwj in Hc.
      pose proof (inference_count_in wi ws (nth_error_In _ _ Hi) Hwi); lia.
    + f_equal; apply (IH ltac:(lia) i j wi wj); assumption.
Qed.

Section PoolFacts.

Variable infer : list byte -> string.
Variable segment_to_running_time : GstClockTime -> GstClockTime.
Variable segment_to_stream_time : GstClockTime -> GstClockTime.

Abbreviation wstep :=
  (worker_step infer segment_to_running_time segment_to_stream_time).
Abbreviation pstep :=
  (pool_step infer segment_to_running_time segment_to_stream_time).
Abbreviation preachable :=
  (pool_reachable infer segment_to_running_time segment_to_stream_time).

(** A statement of one worker keeps the balance between the mutex and the
    number of workers inside: [others] counts the workers inside among the
    rest of the pool. *)
Lemma worker_step_balance m w m' w' posted (others : nat) :
  wstep m w m' w' posted ->
  (others + (if in_inference w then 1 else 0) = mutex_count m)%nat ->
  (others + (if in_inference w' then 1 else 0) = mutex_count m')%nat.
Proof.
  intros Hstep; destruct Hstep; cbn [in_inference w_pc mutex_count];
    try (intros H; exact H).
  - intros H; lia.
  - destruct m; cbn [mutex_count]; intros H; lia.
Qed.

(** The mutex is locked exactly when one worker is inside, and no more
    than one ever is. *)
Lemma pool_balance (p : Pool) :
  preachable p -> inference_count (workers p) = mutex_count (mutex_locked p).
Proof.
  induction 1 as [ | p p' Hr IH Hstep]; [reflexivity | ].
  destruct Hstep as [m ws msgs seg | m m' ws1 w w' ws2 msgs posted Hw];
    cbn [workers mutex_locked] in *.
  - rewrite inference_count_app, inference_count_cons; cbn; lia.
  - rewrite inference_count_app, inference_count_cons in *.
    pose proof (worker_step_balance m w m' w' posted
                  (inference_count ws1 + inference_count ws2) Hw) as Hb.
    lia.
Qed.

(** C7: in every state the pool reaches, whatever the number of pushed
    segments and the interleaving of the workers, at most one worker is
    between [g_mutex_lock] and [g_mutex_unlock], where the feature
    extraction and the inference run: any two workers that are there are the
    same worker. *)
Theorem C7_one_inference_at_a_time (p : Pool) :
  preachable p ->
  (inference_count (workers p) <= 1)%nat /\
  (forall i j wi wj,
     nth_error (workers p) i = Some wi -> nth_error (workers p) j = Some wj ->
     in_inference wi = true -> in_inference wj = true -> i = j).
Proof.
  intros Hr.
  assert (inference_count (workers p) <= 1)%nat as Hc.
  { rewrite (pool_balance p Hr); destruct (mutex_locked p); cbn; lia. }
  split; [exact Hc | apply inference_count_unique; exact Hc].
Qed.

(** *** The pool can always be drained *)

Lemma inference_count_split (ws : list Worker) :
  (1 <= inference_count ws)%nat ->
  exists ws1 w ws2, ws = ws1 ++ w :: ws2 /\ in_inference w = true.
Proof.
  induction ws as [ | w ws IH]; intros H.
  - cbn in H; lia.
  - rewrite inference_count_cons in H.
    destruct (in_inference w) eqn:E.
    + exists [], w, ws; split; [reflexivity | exact E].
    + destruct (IH ltac:(lia)) as (ws1 & w0 & ws2 & -> & Hw).
      exists (w :: ws1), w0, ws2; split; [reflexivity | exact Hw].
Qed.

Lemma pool_remaining_app (ws1 ws2 : list Worker) :
  pool_remaining (ws1 ++ ws2) = (pool_remaining ws1 + pool_remaining ws2)%nat.
Proof. unfold pool_remaining; rewrite map_app, list_sum_app; reflexivity. Qed.

Lemma pool_remaining_split (ws : list Worker) :
  (0 < pool_remaining ws)%nat ->
  exists ws1 w ws2, ws = ws1 ++ w :: ws2 /\ (0 < remaining w)%nat.
Proof.
  induction ws as [ | w ws IH]; intros H.
  - cbn in H; lia.
  - destruct (Nat.eq_dec (remaining w) 0) as [E | E].
    + change (pool_remaining (w :: ws))
        with (remaining w + pool_remaining ws)%nat in H.
      destruct (IH ltac:(lia)) as (ws1 & w0 & ws2 & -> & Hw).
      exists (w :: ws1), w0, ws2; split; [reflexivity | exact Hw].
    + exists [], w, ws; split; [reflexivity | lia].
Qed.

Lemma pool_remaining_zero (ws : list Worker) :
  pool_remaining ws = 0%nat -> Forall (fun w => w_pc w = Returned) ws.
Proof.
  induction ws as [ | w ws IH]; intros H; constructor.
  - change (pool_remaining (w :: ws))
      with (remaining w + pool_remaining ws)%nat in H.
    unfold remaining in H; destruct (w_pc w); try reflexivity; lia.
  - apply IH.
    change (pool_remaining (w :: ws))
      with (remaining w + pool_remaining ws)%nat in H; lia.
Qed.

(** A worker inside the critical section can always execute its next
    statement; so can a worker outside when the mutex is free. *)
Lemma worker_can_step (m : bool) (w : Worker) :
  (0 < remaining w)%nat ->
  in_inference w = true \/ m = false ->
  exists m' w' msgs,
    wstep m w m' w' msgs /\ S (remaining w') = remaining w /\
    w_buf w' = w_buf w.
Proof.
  destruct w as [b c r]; unfold remaining, in_inference; cbn [w_pc w_buf].
  intros Hrem Hen; destruct c; try lia.
  - do 3 eexists; split; [apply ws_map | split; reflexivity].
  - destruct Hen as [Hen | ->]; [discriminate | ].
    do 3 eexists; split; [apply ws_lock | split; reflexivity].
  - do 3 eexists; split; [apply ws_features | split; reflexivity].
  - do 3 eexists; split; [apply ws_infer | split; reflexivity].
  - do 3 eexists; split; [apply ws_unlock | split; reflexivity].
  - do 3 eexists; split; [apply ws_post | split; reflexivity].
  - do 3 eexists; split; [apply ws_free | split; reflexivity].
Qed.

(** No deadlock: from every state the pool reaches, the workers can run
    until all of them have returned, on the segments they were given. *)
Lemma pool_can_drain (n : nat) :
  forall p,
    preachable p -> pool_remaining (workers p) = n ->
    exists p',
      pool_drain infer segment_to_running_time segment_to_stream_time p p' /\
      preachable p' /\
      Forall (fun w => w_pc w = Returned) (workers p') /\
      map w_buf (workers p') = map w_buf (workers p).
Proof.
  induction n as [ | n IH]; intros p Hr Hn.
  - exists p; split; [apply drain_done | ].
    split; [exact Hr | ].
    split; [apply pool_remaining_zero; exact Hn | reflexivity].
  - pose proof (pool_balance p Hr) as Hbal.
    destruct p as [m ws msgs]; cbn [workers mutex_locked] in *.
    assert (exists ws1 w ws2,
              ws = ws1 ++ w :: ws2 /\ (0 < remaining w)%nat /\
              (in_inference w = true \/ m = false)) as Hpick.
    { destruct m; cbn [mutex_count] in Hbal.
      - destruct (inference_count_split ws ltac:(lia))
          as (ws1 & w & ws2 & -> & Hw).
        exists ws1, w, ws2; split; [reflexivity | ].
        split; [ | left; exact Hw].
        unfold in_inference in Hw; unfold remaining.
        destruct (w_pc w); try discriminate; lia.
      - destruct (pool_remaining_split ws ltac:(lia))
          as (ws1 & w & ws2 & -> & Hw).
        exists ws1, w, ws2; split; [reflexivity | ].
        split; [exact Hw | right; reflexivity]. }
    destruct Hpick as (ws1 & w & ws2 & -> & Hrem & Hen).
    destruct (worker_can_step m w Hrem Hen) as (m' & w' & new & Hw & Hdec & Hb).
    assert (pstep (mkPool m (ws1 ++ w :: ws2) msgs)
                  (mkPool m' (ws1 ++ w' :: ws2) (msgs ++ new))) as Hstep
      by (apply ps_worker; exact Hw).
    destruct (IH (mkPool m' (ws1 ++ w' :: ws2) (msgs ++ new)))
      as (p' & Hdrain & Hr' & Hret & Hbufs).
    { eapply pr_step; eassumption. }
    { cbn [workers].
      rewrite pool_remaining_app in *.
      change (pool_remaining (w' :: ws2))
        with (remaining w' + pool_remaining ws2)%nat.
      change (pool_remaining (w :: ws2))
        with (remaining w + pool_remaining ws2)%nat in Hn.
      lia. }
    exists p'; split; [eapply drain_step; eassumption | ].
    split; [exact Hr' | ].
    split; [exact Hret | ].
    rewrite Hbufs; cbn [workers].
    rewrite !map_app; cbn [map]; rewrite Hb; reflexivity.
Qed.

(** *** C5: what reaches the bus *)

Abbreviation message_new :=
  (gst_deepspeech_message_new segment_to_running_time segment_to_stream_time).
Abbreviation run_worker :=
  (run_model_async infer segment_to_running_time segment_to_stream_time).
Abbreviation posted :=
  (posted_by segment_to_running_time segment_to_stream_time).

Lemma worker_step_result m w m' w' msgs :
  wstep m w m' w' msgs -> result_known infer w -> result_known infer w'.
Proof.
  intros Hstep; destruct Hstep; unfold result_known; cbn [w_pc w_result w_buf];
    auto.
Qed.

Lemma worker_step_posted m w m' w' msgs :
  wstep m w m' w' msgs -> posted w' = posted w ++ msgs.
Proof.
  intros Hstep; destruct Hstep; unfold posted_by; cbn [w_pc w_result w_buf];
    rewrite ?app_nil_r; reflexivity.
Qed.

(** In every state of the pool the results are those of the engine, and
    the bus holds what the workers posted, in some order. *)
Lemma pool_bus (p : Pool) :
  preachable p ->
  Forall (result_known infer) (workers p) /\
  Permutation (bus p) (flat_map posted (workers p)).
Proof.
  induction 1 as [ | p p' Hr [IHres IHbus] Hstep].
  - split; [constructor | constructor].
  - destruct Hstep as [m ws msgs seg | m m' ws1 w w' ws2 msgs new Hw];
      cbn [workers bus] in *.
    + split.
      * apply Forall_app; split; [exact IHres | ].
        constructor; [exact I | constructor].
      * rewrite flat_map_app; cbn [flat_map].
        change (posted (mkWorker seg AtMap EmptyString)) with (@nil GstMessage).
        rewrite !app_nil_r; exact IHbus.
    + apply Forall_app in IHres; destruct IHres as [H1 H2].
      inversion H2 as [ | ? ? Hres H2']; subst.
      split.
      * apply Forall_app; split; [exact H1 | ].
        constructor; [ | exact H2'].
        eapply worker_step_result; eassumption.
      * rewrite flat_map_app in *; cbn [flat_map] in *.
        rewrite (worker_step_posted _ _ _ _ _ Hw).
        rewrite <- app_assoc.
        etransitivity; [apply Permutation_app_tail; exact IHbus | ].
        rewrite <- !app_assoc.
        apply Permutation_app_head, Permutation_app_head.
        apply Permutation_app_comm.
Qed.

Lemma returned_posted (ws : list Worker) :
  Forall (result_known infer) ws ->
  Forall (fun w => w_pc w = Returned) ws ->
  flat_map posted ws = flat_map run_worker (map w_buf ws).
Proof.
  induction 1 as [ | w ws Hres _ IH]; intros Hret; [reflexivity | ].
  inversion Hret as [ | ? ? Hw Hret']; subst.
  cbn [flat_map map]; rewrite IH by exact Hret'.
  unfold posted_by, result_known, run_model_async in *; rewrite Hw in *.
  rewrite Hres; reflexivity.
Qed.

(** C5: the worker posts a message for a segment if and only if the
    inference result has length greater than 0: for the empty string it
    posts nothing; for any other result, a single character included, it
    posts exactly one message, which carries the result as its text.  Once
    all the workers of the pool have returned, the bus holds exactly these
    messages, one worker's after the other's in some order. *)
Theorem C5_post_iff_text (b : GstBuffer) (p : Pool) :
  (infer (data b) = EmptyString -> run_worker b = []) /\
  (infer (data b) <> EmptyString ->
     run_worker b = [message_new b (infer (data b))]) /\
  (String.length (infer (data b)) = 1%nat -> length (run_worker b) = 1%nat) /\
  (length (run_worker b) = 1%nat <-> (0 < String.length (infer (data b)))%nat) /\
  (length (run_worker b) <= 1)%nat /\
  (forall msg, In msg (run_worker b) -> msg_text msg = infer (data b)) /\
  (preachable p -> Forall (fun w => w_pc w = Returned) (workers p) ->
     Permutation (bus p) (flat_map run_worker (map w_buf (workers p)))).
Proof.
  assert (preachable p -> Forall (fun w => w_pc w = Returned) (workers p) ->
          Permutation (bus p) (flat_map run_worker (map w_buf (workers p))))
    as Hpool.
  { intros Hr Hret; destruct (pool_bus p Hr) as [Hres Hbus].
    rewrite <- (returned_posted _ Hres Hret); exact Hbus. }
  revert Hpool; unfold run_model_async, post_result.
  destruct (infer (data b)) as [ | c s] eqn:E; cbn [String.length Nat.ltb
    Nat.leb length In]; intros Hpool.
  - repeat split; try congruence; try lia; try tauto.
  - repeat split; try congruence; try lia; try exact Hpool.
    intros msg [<- | []]; reflexivity.
Qed.


End PoolFacts.

Lemma pool_one_inside_reachable :
  pool_reachable infer_a position_time position_time pool_one_inside.
Proof.
  unfold pool_one_inside.
  eapply pr_step.
  2: exact (ps_worker infer_a position_time position_time false true []
              (mkWorker b_loud AtLock EmptyString)
              (mkWorker b_loud AtGetInputVector EmptyString)
              [mkWorker b_silent AtMap EmptyString] [] []
              (ws_lock _ _ _ b_loud EmptyString)).
  eapply pr_step.
  2: exact (ps_worker infer_a position_time position_time false false []
              (mkWorker b_loud AtMap EmptyString)
              (mkWorker b_loud AtLock EmptyString)
              [mkWorker b_silent AtMap EmptyString] [] []
              (ws_map _ _ _ false b_loud EmptyString)).
  eapply pr_step.
  2: exact (ps_push infer_a position_time position_time false
              [mkWorker b_loud AtMap EmptyString] [] b_silent).
  eapply pr_step.
  2: exact (ps_push infer_a position_time position_time false [] [] b_loud).
  apply pr_init.
Defined.

Lemma C7_one_inference_at_a_time_witness :
  (inference_count (workers pool_one_inside) <= 1)%nat.
Proof.
  exact (proj1 (C7_one_inference_at_a_time infer_a position_time position_time
                  pool_one_inside pool_one_inside_reachable)).
Defined.

Lemma pool_one_returned_reachable :
  pool_reachable infer_a position_time position_time pool_one_returned.
Proof.
  pose (msg := gst_deepspeech_message_new position_time position_time
                 b_loud "a").
  unfold pool_one_returned.
  eapply pr_step.
  2: exact (ps_worker infer_a position_time position_time false false []
              (mkWorker b_loud AtFree "a") (mkWorker b_loud Returned "a")
              [] [msg] [] (ws_free _ _ _ false b_loud "a"%string)).
  eapply pr_step.
  2: exact (ps_worker infer_a position_time position_time false false []
              (mkWorker b_loud AtPost "a") (mkWorker b_loud AtFree "a")
              [] [] [msg] (ws_post _ _ _ false b_loud "a"%string)).
  eapply pr_step.
  2: exact (ps_worker infer_a position_time position_time true false []
              (mkWorker b_loud AtUnlock "a") (mkWorker b_loud AtPost "a")
              [] [] [] (ws_unlock _ _ _ true b_loud "a"%string)).
  eapply pr_step.
  2: exact (ps_worker infer_a position_time position_time true true []
              (mkWorker b_loud AtInfer EmptyString)
              (mkWorker b_loud AtUnlock "a")
              [] [] [] (ws_infer _ _ _ true b_loud EmptyString)).
  eapply pr_step.
  2: exact (ps_worker infer_a position_time position_time true true []
              (mkWorker b_loud AtGetInputVector EmptyString)
              (mkWorker b_loud AtInfer EmptyString)
              [] [] [] (ws_features _ _ _ true b_loud EmptyString)).
  eapply pr_step.
  2: exact (ps_worker infer_a position_time position_time false true []
              (mkWorker b_loud AtLock EmptyString)
              (mkWorker b_loud AtGetInputVector EmptyString)
              [] [] [] (ws_lock _ _ _ b_loud EmptyString)).
  eapply pr_step.
  2: exact (ps_worker infer_a position_time position_time false false []
              (mkWorker b_loud AtMap EmptyString)
              (mkWorker b_loud AtLock EmptyString)
              [] [] [] (ws_map _ _ _ false b_loud EmptyString)).
  eapply pr_step.
  2: exact (ps_push infer_a position_time position_time false [] [] b_loud).
  apply pr_init.
Defined.

Lemma C5_post_iff_text_witness :
  run_model_async infer_a position_time position_time b_loud
  = [gst_deepspeech_message_new position_time position_time b_loud "a"] /\
  run_model_async infer_nothing position_time position_time b_loud = [] /\
  Permutation (bus pool_one_returned)
    (flat_map (run_model_async infer_a position_time position_time)
              (map w_buf (workers pool_one_returned))).
Proof.
  split; [ | split].
  - apply (C5_post_iff_text infer_a position_time position_time b_loud
             pool_one_returned).
    discriminate.
  - apply (C5_post_iff_text infer_nothing position_time position_time b_loud
             pool_one_returned).
    reflexivity.
  - apply (C5_post_iff_text infer_a position_time position_time b_loud
             pool_one_returned).
    + exact pool_one_returned_reachable.
    + repeat constructor.
Defined.

(* ===================================================================== *)
(** * Further properties of the element *)
(* ===================================================================== *)

(** ** The energy of a buffer, for every length *)

(** Rounding to a double never goes below the value, short of [2^53]. *)
Lemma round_lower (z : Z) : 0 <= z -> Z.min z (2 ^ 53) <= Double.round z.
Proof.
  intros Hz; unfold Double.round.
  destruct (Z.ltb_spec z (2 ^ 53)) as [Hlt | Hge]; [lia | ].
  assert (0 < z) as Hpos by lia.
  pose proof (Z.log2_spec z Hpos) as [Hlo _].
  assert (53 <= Z.log2 z) as Hlog.
  { apply Z.log2_le_pow2; lia. }
  set (e := Z.log2 z - 52) in *.
  assert (2 ^ 52 <= Z.shiftr z e) as Hq.
  { rewrite Z.shiftr_div_pow2 by lia.
    apply Z.div_le_lower_bound; [apply Z.pow_pos_nonneg; lia | ].
    rewrite <- Z.pow_add_r by lia.
    replace (e + 52) with (Z.log2 z) by lia; exact Hlo. }
  assert (2 <= 2 ^ e) as He.
  { change 2 with (2 ^ 1) at 1; apply Z.pow_le_mono_r; lia. }
  assert (forall q, 2 ^ 52 <= q -> Z.min z (2 ^ 53) <= Z.shiftl q e) as Hsh.
  { intros q Hq'; rewrite Z.shiftl_mul_pow2 by lia.
    rewrite Z.min_r by lia.
    change (2 ^ 53) with (2 ^ 52 * 2).
    apply Z.mul_le_mono_nonneg; lia. }
  repeat match goal with
         | |- context [if ?c then _ else _] => destruct c
         end; apply Hsh; lia.
Qed.

Lemma round_nonneg (z : Z) : 0 <= z -> 0 <= Double.round z.
Proof. intros Hz; pose proof (round_lower z Hz); lia. Qed.

(** The loop keeps the sum non-negative and at least the peak, and the
    peak within the square of a 16-bit sample. *)
Lemma energy_loop_order (ins : list Z) (st : Z * Z) :
  Forall is_gint16 ins ->
  0 <= snd st <= 2 ^ 30 -> snd st <= fst st ->
  0 <= snd (fold_left energy_step ins st) <= 2 ^ 30 /\
  snd (fold_left energy_step ins st) <= fst (fold_left energy_step ins st).
Proof.
  intros Hins; revert st.
  induction Hins as [ | s l Hs _ IH]; intros st Hpk Hle; cbn [fold_left].
  - split; assumption.
  - pose proof (square_bound s Hs) as Hsq.
    apply IH.
    + rewrite energy_step_snd by exact Hs; lia.
    + rewrite energy_step_snd by exact Hs.
      unfold energy_step, Double.add, Double.mul; cbn [fst].
      rewrite (round_exact (s * s)) by lia.
      pose proof (round_lower (fst st + s * s) ltac:(lia)); lia.
Qed.

Lemma normalized_le (x y : Z) : x <= y -> (normalized x <= normalized y)%Q.
Proof.
  intros H; unfold normalized, Qle, Qdiv, Qmult, Qinv, inject_Z; simpl.
  rewrite !Z.mul_1_r; lia.
Qed.


Lemma squaresum_peaksquare (b : GstBuffer) :
  0 <= peaksquare b <= 2 ^ 30 /\ peaksquare b <= squaresum b.
Proof.
  unfold peaksquare, squaresum, energy_loop.
  apply energy_loop_order; cbn [fst snd]; try lia.
  apply samples_range.
Qed.



(** ** Digital silence *)

Lemma round_zero_iff (z : Z) : 0 <= z -> (Double.round z = 0 <-> z = 0).
Proof.
  intros Hz; split.
  - intros H; pose proof (round_lower z Hz); lia.
  - intros ->; reflexivity.
Qed.

Lemma energy_loop_zero (ins : list Z) (st : Z * Z) :
  Forall is_gint16 ins -> 0 <= fst st ->
  (fst (fold_left energy_step ins st) = 0
   <-> fst st = 0 /\ Forall (fun s => s = 0) ins).
Proof.
  intros Hins; revert st.
  induction Hins as [ | s l Hs _ IH]; intros st Hst; cbn [fold_left].
  - split; [intros H; split; [exact H | constructor] | intros [H _]; exact H].
  - pose proof (square_bound s Hs) as Hsq.
    assert (fst (energy_step st s) = Double.round (fst st + s * s)) as Hstep.
    { unfold energy_step, Double.add, Double.mul; cbn [fst].
      rewrite (round_exact (s * s)) by lia; reflexivity. }
    rewrite IH by (rewrite Hstep; apply round_nonneg; lia).
    rewrite Hstep, round_zero_iff by lia.
    split.
    + intros [Hsum Hl]; split; [nia | constructor; [nia | exact Hl]].
    + intros [H0 Hl]; inversion Hl; subst; split; [lia | assumption].
Qed.

Lemma squaresum_nonneg (b : GstBuffer) : 0 <= squaresum b.
Proof. destruct (squaresum_peaksquare b); lia. Qed.

Lemma normalized_zero_iff (x : Z) : (normalized x == 0)%Q <-> x = 0.
Proof.
  unfold normalized, Qeq, Qdiv, Qmult, Qinv, inject_Z; simpl.
  rewrite !Z.mul_1_r; reflexivity.
Qed.

Lemma ncs_nonneg (b : GstBuffer) : (0 <= ncs b)%Q.
Proof.
  unfold ncs; rewrite <- normalized_zero.
  apply normalized_le, squaresum_nonneg.
Qed.

Lemma ncs_zero_iff (b : GstBuffer) : (ncs b == 0)%Q <-> all_zero b.
Proof.
  unfold ncs; rewrite normalized_zero_iff.
  unfold squaresum, energy_loop, all_zero.
  rewrite energy_loop_zero by (try apply samples_range; cbn; lia).
  cbn [fst]; tauto.
Qed.

(** A run of active buffers followed by buffers strictly below the
    threshold, as many as it takes to pass [silence_length]. *)
Lemma speech_then_below (ds : GstDeepSpeech) (actives quiets : list GstBuffer) :
  valid_config ds -> actives <> [] ->
  Forall (fun b => is_active ds b = true) actives ->
  Forall (fun b => Qltb (ncs b) (silence_threshold ds) = true) quiets ->
  Z.of_nat (length quiets) = silence_length ds + 1 ->
  fst (chain_stream ds (actives ++ quiets))
  = mkDeepSpeech (silence_threshold ds) (silence_length ds) 0 gst_buffer_new /\
  submitted (snd (chain_stream ds (actives ++ quiets)))
  = [fold_left gst_buffer_append (actives ++ quiets) (buf ds)].
Proof.
  intros (Hthr & _ & Hlen0 & Hlen1) Hne Hact Hlow Hcount.
  destruct ds as [thr len q acc];
    cbn [silence_threshold silence_length buf] in *.
  destruct actives as [ | a actives]; [congruence | ].
  inversion Hact as [ | ? ? Ha Hacts]; subst.
  assert (0 < gst_buffer_get_size (gst_buffer_append acc a)) as Hsize.
  { rewrite gst_buffer_append_size.
    pose proof (active_has_samples (mkDeepSpeech thr len q acc) a Hthr Ha).
    pose proof (gst_buffer_get_size_nonneg acc); lia. }
  unfold is_active in Ha, Hacts; cbn [silence_threshold] in Ha, Hacts.
  assert (chain_stream (mkDeepSpeech thr len q acc) (a :: actives)
          = (mkDeepSpeech thr len 0
               (fold_left gst_buffer_append (a :: actives) acc),
             map PadPush (a :: actives))) as Hfirst.
  { cbn [chain_stream]; rewrite chain_active by assumption.
    rewrite active_stream by assumption; reflexivity. }
  rewrite chain_stream_app, Hfirst; cbn [fst snd].
  rewrite submitted_app, submitted_map_PadPush; cbn [app].
  assert (quiets <> []) as Hq.
  { intros ->; cbn in Hcount; lia. }
  destruct (below_stream thr len quiets Hlen1 Hlow 0
              (fold_left gst_buffer_append (a :: actives) acc))
    as [Hst Hsub]; try assumption; try lia.
  { cbn [fold_left]; apply fold_append_size; exact Hsize. }
  rewrite Hst, Hsub, app_comm_cons, fold_left_app.
  split; reflexivity.
Qed.



(** Speech followed by digital silence is always flushed: under a positive
    threshold, one or more active buffers followed by exactly
    [silence_length + 1] all-zero buffers give exactly one flush, of
    everything accumulated, and leave the element idle. *)
Theorem silence_ends_segment (ds : GstDeepSpeech)
        (actives quiets : list GstBuffer) :
  valid_config ds -> (0 < silence_threshold ds)%Q -> actives <> [] ->
  Forall (fun b => is_active ds b = true) actives ->
  Forall all_zero quiets ->
  Z.of_nat (length quiets) = silence_length ds + 1 ->
  submitted (snd (chain_stream ds (actives ++ quiets)))
  = [fold_left gst_buffer_append (actives ++ quiets) (buf ds)] /\
  quiet_bufs (fst (chain_stream ds (actives ++ quiets))) = 0 /\
  buf (fst (chain_stream ds (actives ++ quiets))) = gst_buffer_new.
Proof.
  intros Hv Hthr Hne Hact Hz Hcount.
  assert (Forall (fun b => Qltb (ncs b) (silence_threshold ds) = true) quiets)
    as Hlow.
  { eapply Forall_impl; [ | exact Hz].
    intros b Hb; apply ncs_zero_iff in Hb.
    apply Qltb_lt; rewrite Hb; exact Hthr. }
  destruct (speech_then_below ds actives quiets Hv Hne Hact Hlow Hcount)
    as [Hst Hsub].
  rewrite Hst, Hsub; repeat split; reflexivity.
Qed.

Lemma ds_quarter_valid : valid_config ds_quarter.
Proof.
  unfold valid_config, ds_quarter, set_silence_length, set_silence_threshold;
    cbn [silence_threshold silence_length].
  split; [vm_compute; discriminate | ].
  split; [vm_compute; discriminate | ].
  unfold G_MAXINT; lia.
Qed.

Lemma silence_ends_segment_witness :
  submitted (snd (chain_stream ds_quarter ([b_loud] ++ [b_silent; b_silent'])))
  = [fold_left gst_buffer_append ([b_loud] ++ [b_silent; b_silent'])
       (buf ds_quarter)].
Proof.
  apply (silence_ends_segment ds_quarter [b_loud] [b_silent; b_silent']).
  - exact ds_quarter_valid.
  - vm_compute; reflexivity.
  - discriminate.
  - repeat constructor.
  - repeat constructor.
  - reflexivity.
Defined.

(** ** What a flush needs *)

Lemma chain_submitted (ds : GstDeepSpeech) (b : GstBuffer) :
  submitted (snd (gst_deepspeech_chain ds b))
  = submitted (snd (chain_flush (chain_quiet (chain_append ds b) b))).
Proof.
  rewrite chain_unfold; cbn [snd].
  rewrite submitted_app; cbn [submitted flat_map app]; rewrite app_nil_r.
  reflexivity.
Qed.

Lemma chain_quiet_positive (ds : GstDeepSpeech) (b : GstBuffer) :
  0 < quiet_bufs (chain_quiet ds b) ->
  Qltb (ncs b) (silence_threshold ds) = true /\
  0 < gst_buffer_get_size (buf ds).
Proof.
  unfold chain_quiet.
  destruct (Qltb (ncs b) (silence_threshold ds)); cbn [andb].
  - destruct (Z.ltb_spec 0 (gst_buffer_get_size (buf ds)));
      cbn [quiet_bufs set_quiet_bufs]; [auto | lia].
  - cbn [quiet_bufs set_quiet_bufs]; lia.
Qed.

Lemma flush_quiet_helper (ds : GstDeepSpeech) (b : GstBuffer) :
  0 <= silence_length ds ->
  submitted (snd (gst_deepspeech_chain ds b)) <> [] ->
  (ncs b < silence_threshold ds)%Q /\
  0 < gst_buffer_get_size (buf ds) /\
  submitted (snd (gst_deepspeech_chain ds b))
  = [gst_buffer_append (buf ds) b].
Proof.
  intros Hlen Hsub; rewrite chain_submitted in *.
  destruct (chain_append_config ds b) as (Ht & Hl & _).
  destruct (chain_quiet_buf (chain_append ds b) b) as (Hb & _ & Hl2).
  set (ds2 := chain_quiet (chain_append ds b) b) in *.
  destruct (Z_lt_le_dec (silence_length ds2) (quiet_bufs ds2)) as [Hq | Hq].
  2: { rewrite chain_flush_no in Hsub by lia; cbn in Hsub; congruence. }
  destruct (Z_lt_le_dec 0 (gst_buffer_get_size (buf ds2))) as [Hs | Hs].
  2: { rewrite chain_flush_no in Hsub by lia; cbn in Hsub; congruence. }
  rewrite chain_flush_yes by (split; assumption).
  cbn [snd submitted flat_map app].
  destruct (chain_quiet_positive (chain_append ds b) b) as [Hlow Hs1].
  { fold ds2; lia. }
  rewrite Ht in Hlow; apply Qltb_lt in Hlow.
  assert (0 < gst_buffer_get_size (buf ds)) as Hacc.
  { destruct (Z_lt_le_dec 0 (gst_buffer_get_size (buf ds))) as [H | H];
      [exact H | ].
    rewrite chain_append_no in Hs1; [lia | ].
    intros [Ha | Ha]; [ | lia].
    exact (Qlt_irrefl _ (Qlt_trans _ _ _ Hlow Ha)). }
  split; [exact Hlow | split; [exact Hacc | ]].
  rewrite Hb, chain_append_yes by (right; exact Hacc); reflexivity.
Qed.

Lemma chain_flushed_state (ds : GstDeepSpeech) (b : GstBuffer) :
  submitted (snd (gst_deepspeech_chain ds b)) <> [] ->
  fst (gst_deepspeech_chain ds b)
  = set_quiet_bufs
      (set_buf (chain_quiet (chain_append ds b) b) gst_buffer_new) 0.
Proof.
  rewrite chain_submitted, chain_unfold; cbn [fst].
  unfold chain_flush; destruct (_ && _); cbn [fst snd submitted flat_map];
    [reflexivity | congruence].
Qed.

(** A call of the chain function that flushes was given a buffer strictly
    below the threshold while the accumulator already held bytes: a buffer
    at or above the threshold never ends a segment, and nothing is flushed
    out of an empty accumulator.  The segment submitted is the accumulator
    with that last buffer appended, and the call leaves an empty accumulator
    and a counter of 0. *)
Theorem flush_needs_quiet_buffer (ds : GstDeepSpeech) (b : GstBuffer) :
  0 <= silence_length ds ->
  submitted (snd (gst_deepspeech_chain ds b)) <> [] ->
  (ncs b < silence_threshold ds)%Q /\
  0 < gst_buffer_get_size (buf ds) /\
  submitted (snd (gst_deepspeech_chain ds b))
  = [gst_buffer_append (buf ds) b] /\
  buf (fst (gst_deepspeech_chain ds b)) = gst_buffer_new /\
  quiet_bufs (fst (gst_deepspeech_chain ds b)) = 0.
Proof.
  intros Hlen Hsub.
  destruct (flush_quiet_helper ds b Hlen Hsub) as (Hlow & Hacc & Hseg).
  rewrite (chain_flushed_state ds b Hsub).
  cbn [buf quiet_bufs set_quiet_bufs set_buf].
  repeat split; assumption || reflexivity.
Qed.

Lemma flush_needs_quiet_buffer_witness :
  (ncs b_silent' < silence_threshold ds_quarter_started)%Q.
Proof.
  apply (flush_needs_quiet_buffer ds_quarter_started b_silent').
  - vm_compute; discriminate.
  - vm_compute; discriminate.
Defined.

Lemma chain_stream_submitted_nil (bs : list GstBuffer) :
  forall ds,
    (forall b, In b bs -> Qltb (ncs b) (silence_threshold ds) = false) ->
    0 <= silence_length ds ->
    submitted (snd (chain_stream ds bs)) = [].
Proof.
  induction bs as [ | b bs IH]; intros ds Hq Hlen; [reflexivity | ].
  cbn [chain_stream].
  destruct (chain_config ds b) as [Ht Hl].
  assert (submitted (snd (gst_deepspeech_chain ds b)) = []) as Hb.
  { destruct (submitted (snd (gst_deepspeech_chain ds b))) eqn:E;
      [reflexivity | exfalso].
    destruct (flush_quiet_helper ds b Hlen) as [Hlow _];
      [rewrite E; discriminate | ].
    apply Qltb_lt in Hlow; rewrite (Hq b (or_introl eq_refl)) in Hlow.
    discriminate. }
  destruct (gst_deepspeech_chain ds b) as [ds1 acts1]; cbn [fst snd] in *.
  specialize (IH ds1).
  destruct (chain_stream ds1 bs) as [ds2 acts2]; cbn [snd] in *.
  rewrite submitted_app, Hb, IH; [reflexivity | | lia].
  intros b' Hin; rewrite Ht; apply Hq; right; exact Hin.
Qed.

(** With [silence-threshold=0] the chain function never flushes: no buffer
    is strictly below the threshold, so the quiet run never starts and
    whatever is accumulated is only submitted at end of stream. *)
Theorem threshold_zero_never_flushes (ds : GstDeepSpeech)
        (bs : list GstBuffer) :
  (silence_threshold ds == 0)%Q -> 0 <= silence_length ds ->
  submitted (snd (chain_stream ds bs)) = [] /\
  forwarded (snd (chain_stream ds bs)) = bs.
Proof.
  intros Hthr Hlen; split.
  - apply chain_stream_submitted_nil; [ | exact Hlen].
    intros b _; apply Qltb_ge; rewrite Hthr; apply ncs_nonneg.
  - revert ds Hthr Hlen; induction bs as [ | b bs IH]; intros ds Hthr Hlen;
      cbn [chain_stream]; [reflexivity | ].
    pose proof (chain_forwarded ds b) as Hb.
    destruct (chain_config ds b) as [Ht Hl].
    destruct (gst_deepspeech_chain ds b) as [ds1 acts1]; cbn [fst snd] in *.
    specialize (IH ds1 ltac:(rewrite Ht; exact Hthr) ltac:(lia)).
    destruct (chain_stream ds1 bs) as [ds2 acts2]; cbn [snd] in *.
    rewrite forwarded_app, Hb, IH; reflexivity.
Qed.

Lemma threshold_zero_never_flushes_witness :
  submitted (snd (chain_stream ds_threshold_zero
                    (b_loud :: repeat b_silent 10))) = [].
Proof.
  apply (threshold_zero_never_flushes ds_threshold_zero
           (b_loud :: repeat b_silent 10)).
  - reflexivity.
  - vm_compute; discriminate.
Defined.

(** ** What is submitted *)

(** No empty segment is ever handed to the pool: whatever the state and
    the call (a buffer, a sink event, a property change), every segment
    pushed holds at least one byte. *)
Theorem submitted_segment_nonempty (ds : GstDeepSpeech) (c : Call)
        (seg : GstBuffer) :
  In seg (submitted (snd (call ds c))) -> 0 < gst_buffer_get_size seg.
Proof.
  intros Hin; destruct c as [b | e | v | v]; cbn [call] in Hin.
  - rewrite chain_submitted in Hin.
    unfold chain_flush in Hin.
    destruct (_ <? _); cbn [andb] in Hin; [ | contradiction].
    destruct (Z.ltb_spec 0 (gst_buffer_get_size
                              (buf (chain_quiet (chain_append ds b) b))))
      as [Hs | Hs]; cbn [snd submitted flat_map app] in Hin;
      [ | contradiction].
    destruct Hin as [<- | []]; rewrite gst_buffer_copy_deep_id; exact Hs.
  - destruct e; cbn [gst_deepspeech_sink_event snd] in Hin;
      try (cbn in Hin; contradiction).
    destruct (Z.ltb_spec 0 (gst_buffer_get_size (buf ds))) as [Hs | Hs];
      cbn [app submitted flat_map] in Hin; [ | contradiction].
    destruct Hin as [<- | []]; rewrite gst_buffer_copy_deep_id; exact Hs.
  - contradiction.
  - contradiction.
Qed.

Lemma submitted_segment_nonempty_witness :
  0 < gst_buffer_get_size (gst_buffer_append (buf ds_quarter_started) b_silent').
Proof.
  apply (submitted_segment_nonempty ds_quarter_started (CallChain b_silent')).
  vm_compute; left; reflexivity.
Defined.

(** ** How often the chain function can flush *)

Ltac gate_fields :=
  cbn [silence_threshold silence_length quiet_bufs buf
       set_quiet_bufs set_buf fst snd] in *.

(** One call advances the current segment by at most one step, and a
    flush uses up [silence_length + 2] steps. *)
Lemma chain_progress (ds : GstDeepSpeech) (b : GstBuffer) :
  0 <= silence_length ds <= G_MAXINT -> gate_invariant ds ->
  (silence_length ds + 2)
  * Z.of_nat (length (submitted (snd (gst_deepspeech_chain ds b))))
  + segment_progress (fst (gst_deepspeech_chain ds b))
  <= segment_progress ds + 1.
Proof.
  intros Hlen [Hq Hne].
  rewrite chain_submitted, chain_unfold; cbn [fst].
  pose proof (gst_buffer_get_size_nonneg b) as Hb.
  pose proof (gst_buffer_get_size_nonneg (buf ds)) as Hacc.
  destruct ds as [thr len q acc];
    cbn [silence_threshold silence_length quiet_bufs buf] in *.
  unfold G_MAXINT in Hlen.
  assert ((q + 1) mod 2 ^ 32 = q + 1) as Hmod by (apply Z.mod_small; lia).
  pose proof (gst_buffer_append_size acc b) as Happ.
  assert ((len <? 0) = false) as Hlen0 by (apply Z.ltb_ge; lia).
  assert ((0 <? gst_buffer_get_size gst_buffer_new) = false) as Hnew
    by reflexivity.
  unfold chain_append, chain_quiet, chain_flush, segment_progress;
    cbn [silence_threshold buf].
  destruct (Qltb thr (ncs b)) eqn:Hact; cbn [orb].
  - (* active: appended, counter cleared, no flush *)
    gate_fields; rewrite (Qltb_asym _ _ Hact); cbn [andb]; gate_fields.
    rewrite Hlen0; cbn [andb]; gate_fields.
    cbn [submitted flat_map length].
    destruct (0 <? gst_buffer_get_size (gst_buffer_append acc b));
      destruct (Z.ltb_spec 0 (gst_buffer_get_size acc)); lia.
  - destruct (0 <? gst_buffer_get_size acc) eqn:Hs; gate_fields.
    + (* not active, accumulator non-empty: appended *)
      apply Z.ltb_lt in Hs.
      assert ((0 <? gst_buffer_get_size (gst_buffer_append acc b)) = true)
        as Hsize by (apply Z.ltb_lt; lia).
      rewrite Hsize, andb_true_r.
      destruct (Qltb (ncs b) thr); gate_fields;
        rewrite ?Hmod, ?Hsize, ?Hlen0, ?andb_true_r; cbn [andb].
      * destruct (Z.ltb_spec len (q + 1)); gate_fields;
          rewrite ?Hnew, ?Hsize; cbn [submitted flat_map app length]; lia.
      * gate_fields; rewrite Hsize; cbn [submitted flat_map length]; lia.
    + (* not active, accumulator empty: nothing happens *)
      repeat (progress (gate_fields; rewrite ?Hs, ?andb_false_r)).
      cbn [submitted flat_map length]; lia.
Qed.

Lemma segment_progress_nonneg (ds : GstDeepSpeech) :
  gate_invariant ds -> 0 <= segment_progress ds.
Proof.
  intros [Hq _]; unfold segment_progress.
  destruct (0 <? _); lia.
Qed.

(** The chain function cannot flush more often than once every
    [silence_length + 2] buffers: along any stream, [silence_length + 2]
    times the number of flushes, plus the progress of the segment still
    being accumulated, is at most the progress at the start plus the number
    of buffers.  From an empty accumulator, [n] buffers give at most
    [n / (silence_length + 2)] segments. *)
Theorem flush_rate_bound (ds : GstDeepSpeech) (bs : list GstBuffer) :
  0 <= silence_length ds <= G_MAXINT -> gate_invariant ds ->
  (silence_length ds + 2)
  * Z.of_nat (length (submitted (snd (chain_stream ds bs))))
  + segment_progress (fst (chain_stream ds bs))
  <= segment_progress ds + Z.of_nat (length bs) /\
  (gst_buffer_get_size (buf ds) = 0 ->
   (silence_length ds + 2)
   * Z.of_nat (length (submitted (snd (chain_stream ds bs))))
   <= Z.of_nat (length bs)).
Proof.
  intros Hlen Hinv.
  assert ((silence_length ds + 2)
          * Z.of_nat (length (submitted (snd (chain_stream ds bs))))
          + segment_progress (fst (chain_stream ds bs))
          <= segment_progress ds + Z.of_nat (length bs)) as Hmain.
  { revert ds Hlen Hinv; induction bs as [ | b bs IH]; intros ds Hlen Hinv.
    - cbn [chain_stream fst snd submitted flat_map length]; lia.
    - cbn [chain_stream].
      pose proof (chain_progress ds b Hlen Hinv) as Hstep.
      pose proof (chain_gate_invariant ds b ltac:(lia)) as Hinv1.
      destruct (chain_config ds b) as [_ Hl].
      destruct (gst_deepspeech_chain ds b) as [ds1 acts1]; cbn [fst snd] in *.
      specialize (IH ds1 ltac:(lia) Hinv1).
      destruct (chain_stream ds1 bs) as [ds2 acts2]; cbn [fst snd] in *.
      rewrite submitted_app, length_app, Nat2Z.inj_add.
      change (length (b :: bs)) with (S (length bs)).
      rewrite Hl in IH; nia. }
  split; [exact Hmain | ].
  intros Hempty.
  pose proof (segment_progress_nonneg (fst (chain_stream ds bs))) as Hnn.
  assert (gate_invariant (fst (chain_stream ds bs))) as Hfin
    by (apply chain_stream_gate_invariant; [lia | exact Hinv]).
  specialize (Hnn Hfin).
  unfold segment_progress in Hmain at 2; rewrite Hempty in Hmain.
  cbn in Hmain; lia.
Qed.

Lemma flush_rate_bound_witness :
  (silence_length gst_deepspeech_init + 2)
  * Z.of_nat (length (submitted
                        (snd (chain_stream gst_deepspeech_init three_silent))))
  <= Z.of_nat (length three_silent).
Proof.
  apply (flush_rate_bound gst_deepspeech_init three_silent).
  - vm_compute; split; discriminate.
  - unfold gate_invariant, gst_deepspeech_init, DEFAULT_SILENCE_LENGTH;
      cbn [quiet_bufs silence_length buf]; lia.
  - reflexivity.
Defined.

(** ** Where the bytes of a stream go *)

(** What one call leaves: the appended accumulator stays, or it is
    submitted, non-empty, and a fresh buffer takes its place. *)
Lemma chain_outcome (ds : GstDeepSpeech) (b : GstBuffer) :
  (submitted (snd (gst_deepspeech_chain ds b)) = [] /\
   buf (fst (gst_deepspeech_chain ds b)) = buf (chain_append ds b)) \/
  (submitted (snd (gst_deepspeech_chain ds b)) = [buf (chain_append ds b)] /\
   buf (fst (gst_deepspeech_chain ds b)) = gst_buffer_new /\
   0 < gst_buffer_get_size (buf (chain_append ds b))).
Proof.
  rewrite chain_submitted, chain_unfold; cbn [fst].
  destruct (chain_quiet_buf (chain_append ds b) b) as (Hb & _).
  set (ds2 := chain_quiet (chain_append ds b) b) in *.
  unfold chain_flush.
  destruct (silence_length ds2 <? quiet_bufs ds2); cbn [andb].
  - destruct (Z.ltb_spec 0 (gst_buffer_get_size (buf ds2))) as [Hs | Hs];
      cbn [fst snd submitted flat_map app buf set_quiet_bufs set_buf].
    + right; rewrite gst_buffer_copy_deep_id, <- Hb; auto.
    + left; auto.
  - cbn [fst snd submitted flat_map]; left; auto.
Qed.

Lemma chain_append_data (ds : GstDeepSpeech) (b : GstBuffer) :
  data (buf (chain_append ds b))
  = data (buf ds)
    ++ flat_map data
         (if Qltb (silence_threshold ds) (ncs b)
             || (0 <? gst_buffer_get_size (buf ds))
          then [b] else []).
Proof.
  unfold chain_append; destruct (_ || _); cbn [flat_map buf set_buf].
  - cbn [gst_buffer_append data]; rewrite app_nil_r; reflexivity.
  - rewrite app_nil_r; reflexivity.
Qed.

Lemma is_active_chain (ds : GstDeepSpeech) (b b' : GstBuffer) :
  is_active (fst (gst_deepspeech_chain ds b)) b' = is_active ds b'.
Proof.
  unfold is_active; destruct (chain_config ds b) as [-> _]; reflexivity.
Qed.

(** The bytes of the segments and of the accumulator, against the bytes
    that were appended. *)
Lemma segments_bytes_helper (ds : GstDeepSpeech) (bs : list GstBuffer) :
  flat_map data (submitted (snd (chain_stream ds bs)))
  ++ data (buf (fst (chain_stream ds bs)))
  = data (buf ds) ++ flat_map data (captured ds bs).
Proof.
  revert ds; induction bs as [ | b bs IH]; intros ds.
  - cbn [chain_stream captured fst snd submitted flat_map app].
    rewrite app_nil_r; reflexivity.
  - cbn [chain_stream captured].
    pose proof (chain_outcome ds b) as Hout.
    pose proof (chain_append_data ds b) as Happ.
    specialize (IH (fst (gst_deepspeech_chain ds b))).
    destruct (gst_deepspeech_chain ds b) as [ds1 acts1]; cbn [fst snd] in *.
    destruct (chain_stream ds1 bs) as [ds2 acts2]; cbn [fst snd] in *.
    rewrite submitted_app, !flat_map_app, <- app_assoc, IH.
    rewrite !app_assoc; f_equal.
    rewrite <- Happ.
    destruct Hout as [[-> ->] | (-> & -> & _)];
      cbn [flat_map app gst_buffer_new data]; rewrite ?app_nil_r;
      reflexivity.
Qed.

(** Nothing that was appended is lost, duplicated or reordered: along any
    stream, the bytes of the submitted segments, in order, followed by the
    bytes left in the accumulator, are the bytes the accumulator started
    with followed by the bytes of the appended buffers in arrival order.
    Every active buffer of the stream is among the appended ones. *)
Theorem segments_conserve_bytes (ds : GstDeepSpeech) (bs : list GstBuffer) :
  flat_map data (submitted (snd (chain_stream ds bs)))
  ++ data (buf (fst (chain_stream ds bs)))
  = data (buf ds) ++ flat_map data (captured ds bs) /\
  (forall b, In b bs -> is_active ds b = true -> In b (captured ds bs)).
Proof.
  split; [apply segments_bytes_helper | ].
  revert ds; induction bs as [ | b0 bs IH]; intros ds b Hin Hact;
    [contradiction | ].
  cbn [captured]; apply in_or_app.
  destruct Hin as [-> | Hin].
  - left; unfold is_active in Hact; rewrite Hact; left; reflexivity.
  - right; apply IH; [exact Hin | ].
    rewrite is_active_chain; exact Hact.
Qed.

Lemma segments_conserve_bytes_witness :
  In b_loud (captured gst_deepspeech_init two_utterances).
Proof.
  apply (segments_conserve_bytes gst_deepspeech_init two_utterances).
  - right; left; reflexivity.
  - reflexivity.
Defined.

(** The accumulator is empty or begins with the bytes of an active buffer
    seen so far; so does every segment submitted later. *)
Lemma segment_start_invariant (bs known : list GstBuffer) :
  forall ds,
    (gst_buffer_get_size (buf ds) = 0 \/
     exists b, In b known /\ is_active ds b = true /\ starts_with (buf ds) b) ->
    forall seg,
      In seg (submitted (snd (chain_stream ds bs))) ->
      exists b,
        In b (known ++ bs) /\ is_active ds b = true /\ starts_with seg b.
Proof.
  revert known; induction bs as [ | b0 bs IH]; intros known ds Hinv seg Hin;
    [contradiction | ].
  cbn [chain_stream] in Hin.
  pose proof (chain_outcome ds b0) as Hout.
  pose proof (chain_append_data ds b0) as Happ.
  pose proof (is_active_chain ds b0) as Hact.
  assert (gst_buffer_get_size (buf (chain_append ds b0)) = 0 \/
          exists b, In b (known ++ [b0]) /\ is_active ds b = true /\
                    starts_with (buf (chain_append ds b0)) b) as Hinv1.
  { destruct Hinv as [Hempty | (b & Hb & Hab & rest & Hrest)].
    - destruct (Qltb (silence_threshold ds) (ncs b0)) eqn:Ha; cbn [orb] in Happ.
      + right; exists b0; split; [apply in_or_app; right; left; reflexivity | ].
        split; [exact Ha | ].
        exists []; rewrite Happ; cbn [flat_map].
        unfold gst_buffer_get_size in Hempty.
        destruct (data (buf ds)); [reflexivity | cbn [length] in Hempty; lia].
      + left; rewrite chain_append_no; [exact Hempty | ].
        intros [H | H]; [apply Qltb_lt in H; congruence | lia].
    - right; exists b; split; [apply in_or_app; left; exact Hb | ].
      split; [exact Hab | ].
      exists (rest ++ flat_map data
                (if Qltb (silence_threshold ds) (ncs b0)
                    || (0 <? gst_buffer_get_size (buf ds))
                 then [b0] else [])).
      rewrite Happ, Hrest, app_assoc; reflexivity. }
  specialize (IH (known ++ [b0]) (fst (gst_deepspeech_chain ds b0))).
  destruct (gst_deepspeech_chain ds b0) as [ds1 acts1]; cbn [fst snd] in *.
  destruct (chain_stream ds1 bs) as [ds2 acts2]; cbn [fst snd] in *.
  rewrite submitted_app in Hin; apply in_app_or in Hin.
  destruct Hin as [Hin | Hin].
  - destruct Hout as [[Hs _] | (Hs & _ & Hsize)]; rewrite Hs in Hin;
      [contradiction | ].
    destruct Hin as [<- | []].
    destruct Hinv1 as [H0 | (b & Hb & Hab & Hst)]; [lia | ].
    exists b; split; [ | split; assumption].
    apply in_app_or in Hb; apply in_or_app.
    destruct Hb as [Hb | [<- | []]]; [left; exact Hb | right; left; reflexivity].
  - destruct (IH ltac:(
        destruct Hout as [[_ Hb] | (_ & Hb & _)]; rewrite Hb;
        [ destruct Hinv1 as [H0 | (b & Hb1 & Hab & Hst)];
          [left; exact H0
          | right; exists b; rewrite Hact; auto]
        | left; reflexivity ]) seg Hin) as (b & Hb & Hab & Hst).
    exists b; rewrite <- app_assoc in Hb; cbn [app] in Hb.
    rewrite Hact in Hab; auto.
Qed.

(** Every segment begins at speech: on a stream that starts with an empty
    accumulator, each submitted segment begins with the bytes of an active
    buffer of the stream. *)
Theorem segment_starts_with_speech (ds : GstDeepSpeech)
        (bs : list GstBuffer) (seg : GstBuffer) :
  gst_buffer_get_size (buf ds) = 0 ->
  In seg (submitted (snd (chain_stream ds bs))) ->
  exists b, In b bs /\ is_active ds b = true /\ starts_with seg b.
Proof.
  intros Hempty Hin.
  destruct (segment_start_invariant bs [] ds (or_introl Hempty) seg Hin)
    as (b & Hb & Hab & Hst).
  exists b; auto.
Qed.

Lemma segment_starts_with_speech_witness :
  exists b,
    In b [b_silent; b_loud; b_silent; b_silent'] /\
    is_active ds_quarter b = true /\
    starts_with (fold_left gst_buffer_append [b_loud; b_silent; b_silent']
                   gst_buffer_new) b.
Proof.
  apply (segment_starts_with_speech ds_quarter
           [b_silent; b_loud; b_silent; b_silent']).
  - reflexivity.
  - vm_compute; left; reflexivity.
Defined.

(** ** More on the workers of the pool *)

Section PoolRuns.

Variable infer : list byte -> string.
Variable segment_to_running_time : GstClockTime -> GstClockTime.
Variable segment_to_stream_time : GstClockTime -> GstClockTime.

Abbreviation reachable_pool :=
  (pool_reachable infer segment_to_running_time segment_to_stream_time).
Abbreviation worker_messages :=
  (run_model_async infer segment_to_running_time segment_to_stream_time).

Lemma returned_not_inside (ws : list Worker) :
  Forall (fun w => w_pc w = Returned) ws -> inference_count ws = 0%nat.
Proof.
  induction 1 as [ | w ws Hw _ IH]; [reflexivity | ].
  rewrite inference_count_cons, IH.
  unfold in_inference; rewrite Hw; reflexivity.
Qed.

(** The mutex is held exactly while a worker is inside the critical
    section: in every state the pool reaches it is locked if and only if
    some worker stands between [g_mutex_lock] and [g_mutex_unlock], and once
    every worker has returned it is free. *)
Theorem mutex_held_iff_inside (p : Pool) :
  reachable_pool p ->
  (mutex_locked p = true <->
   exists w, In w (workers p) /\ in_inference w = true) /\
  (Forall (fun w => w_pc w = Returned) (workers p) -> mutex_locked p = false).
Proof.
  intros Hr.
  pose proof (pool_balance infer segment_to_running_time
                segment_to_stream_time p Hr) as Hbal.
  split; [split | ].
  - intros Hm; rewrite Hm in Hbal; cbn [mutex_count] in Hbal.
    destruct (inference_count_split (workers p) ltac:(lia))
      as (ws1 & w & ws2 & Heq & Hw).
    exists w; split; [rewrite Heq; apply in_elt | exact Hw].
  - intros (w & Hin & Hw).
    pose proof (inference_count_in w (workers p) Hin Hw) as Hc.
    destruct (mutex_locked p); [reflexivity | cbn [mutex_count] in Hbal; lia].
  - intros Hret; rewrite (returned_not_inside _ Hret) in Hbal.
    destruct (mutex_locked p); [discriminate | reflexivity].
Qed.

(** No deadlock and nothing lost: from every state the pool reaches, the
    workers can run, without further pushes, until all of them have
    returned; the mutex is then free and the bus holds, in some order,
    exactly the messages of the pushed segments. *)
Theorem pool_drains (p : Pool) :
  reachable_pool p ->
  exists p',
    pool_drain infer segment_to_running_time segment_to_stream_time p p' /\
    Forall (fun w => w_pc w = Returned) (workers p') /\
    mutex_locked p' = false /\
    Permutation (bus p')
      (flat_map worker_messages (map w_buf (workers p))).
Proof.
  intros Hr.
  destruct (pool_can_drain infer segment_to_running_time
              segment_to_stream_time (pool_remaining (workers p)) p Hr
              eq_refl) as (p' & Hdrain & Hr' & Hret & Hbufs).
  exists p'; split; [exact Hdrain | split; [exact Hret | split]].
  - pose proof (pool_balance infer segment_to_running_time
                  segment_to_stream_time p' Hr') as Hbal.
    rewrite (returned_not_inside _ Hret) in Hbal.
    destruct (mutex_locked p'); [discriminate | reflexivity].
  - destruct (pool_bus infer segment_to_running_time
                segment_to_stream_time p' Hr') as [Hres Hbus].
    rewrite <- Hbufs.
    rewrite <- (returned_posted infer segment_to_running_time
                  segment_to_stream_time _ Hres Hret).
    exact Hbus.
Qed.

(** One worker run from its first statement to its return while the
    others stand still. *)
Lemma worker_runs (ws1 ws2 : list Worker) (msgs : list GstMessage)
      (b : GstBuffer) :
  reachable_pool (mkPool false (ws1 ++ mkWorker b AtMap EmptyString :: ws2) msgs) ->
  reachable_pool
    (mkPool false
       (ws1 ++ mkWorker b Returned (infer (data b)) :: ws2)
       (msgs ++ worker_messages b)).
Proof.
  intros H0.
  pose proof (pr_step _ _ _ _ _ H0
                (ps_worker _ _ _ _ _ ws1 _ _ ws2 msgs _
                   (ws_map _ _ _ false b EmptyString))) as H1.
  pose proof (pr_step _ _ _ _ _ H1
                (ps_worker _ _ _ _ _ ws1 _ _ ws2 _ _
                   (ws_lock _ _ _ b EmptyString))) as H2.
  pose proof (pr_step _ _ _ _ _ H2
                (ps_worker _ _ _ _ _ ws1 _ _ ws2 _ _
                   (ws_features _ _ _ true b EmptyString))) as H3.
  pose proof (pr_step _ _ _ _ _ H3
                (ps_worker _ _ _ _ _ ws1 _ _ ws2 _ _
                   (ws_infer _ _ _ true b EmptyString))) as H4.
  pose proof (pr_step _ _ _ _ _ H4
                (ps_worker _ _ _ _ _ ws1 _ _ ws2 _ _
                   (ws_unlock _ _ _ true b (infer (data b))))) as H5.
  pose proof (pr_step _ _ _ _ _ H5
                (ps_worker _ _ _ _ _ ws1 _ _ ws2 _ _
                   (ws_post _ _ _ false b (infer (data b))))) as H6.
  pose proof (pr_step _ _ _ _ _ H6
                (ps_worker _ _ _ _ _ ws1 _ _ ws2 _ _
                   (ws_free _ _ _ false b (infer (data b))))) as H7.
  rewrite !app_nil_r in H7; exact H7.
Qed.

(** Messages can overtake each other: for any two segments pushed one
    after the other, the pool can end with every worker returned and the
    message of the second segment on the bus before the message of the
    first. *)
Theorem completion_order_is_free (s1 s2 : GstBuffer) :
  exists p,
    reachable_pool p /\
    map w_buf (workers p) = [s1; s2] /\
    Forall (fun w => w_pc w = Returned) (workers p) /\
    bus p = worker_messages s2 ++ worker_messages s1.
Proof.
  pose proof (pr_init infer segment_to_running_time segment_to_stream_time)
    as H0.
  pose proof (pr_step _ _ _ _ _ H0 (ps_push _ _ _ false [] [] s1)) as H1.
  pose proof (pr_step _ _ _ _ _ H1 (ps_push _ _ _ false _ [] s2)) as H2.
  cbn [app] in H2.
  pose proof (worker_runs [mkWorker s1 AtMap EmptyString] [] [] s2 H2) as H3.
  pose proof (worker_runs [] [mkWorker s2 Returned (infer (data s2))]
                _ s1 H3) as H4.
  cbn [app] in H4.
  eexists; split; [exact H4 | ].
  cbn [workers bus map w_buf w_pc].
  split; [reflexivity | split; [repeat constructor | reflexivity]].
Qed.

End PoolRuns.

Lemma mutex_held_iff_inside_witness :
  mutex_locked pool_one_inside = true <->
  exists w, In w (workers pool_one_inside) /\ in_inference w = true.
Proof.
  exact (proj1 (mutex_held_iff_inside infer_a position_time position_time
                  pool_one_inside pool_one_inside_reachable)).
Defined.

Lemma pool_drains_witness :
  exists p',
    pool_drain infer_a position_time position_time pool_one_inside p' /\
    Forall (fun w => w_pc w = Returned) (workers p') /\
    mutex_locked p' = false /\
    Permutation (bus p')
      (flat_map (run_model_async infer_a position_time position_time)
                (map w_buf (workers pool_one_inside))).
Proof.
  exact (pool_drains infer_a position_time position_time pool_one_inside
           pool_one_inside_reachable).
Defined.

(** ** The times of every message *)

(** Whatever the engine and the segment of the element: every message
    posted for a segment that a reachable instance submits, by the chain
    function or at end of stream, carries [GST_CLOCK_TIME_NONE] as timestamp
    and as duration, and the stream time and running time of that
    position. *)
Theorem posted_message_times
        (infer : list byte -> string)
        (segment_to_running_time segment_to_stream_time :
           GstClockTime -> GstClockTime)
        (ds : GstDeepSpeech) (c : Call) (msg : GstMessage) :
  reachable ds ->
  In msg (recognise infer segment_to_running_time segment_to_stream_time
            (snd (call ds c))) ->
  msg_timestamp msg = GST_CLOCK_TIME_NONE /\
  msg_duration msg = GST_CLOCK_TIME_NONE /\
  msg_stream_time msg = segment_to_stream_time GST_CLOCK_TIME_NONE /\
  msg_running_time msg = segment_to_running_time GST_CLOCK_TIME_NONE /\
  msg_text msg <> EmptyString.
Proof.
  intros Hr Hin; unfold recognise in Hin.
  apply in_flat_map in Hin; destruct Hin as (seg & Hseg & Hmsg).
  destruct (submitted_times ds c seg Hr Hseg) as [Ht Hd].
  unfold run_model_async, post_result in Hmsg.
  destruct (infer (data seg)) as [ | ch rest] eqn:Htext; cbn in Hmsg;
    [contradiction | ].
  destruct Hmsg as [<- | []]; unfold gst_deepspeech_message_new;
    cbn [msg_timestamp msg_duration msg_stream_time msg_running_time msg_text].
  rewrite Ht, Hd; repeat split; discriminate.
Qed.

Lemma posted_message_times_witness :
  msg_timestamp
    (gst_deepspeech_message_new position_time position_time
       (gst_buffer_append (buf ds_quarter_started) b_silent') "a")
  = GST_CLOCK_TIME_NONE.
Proof.
  apply (posted_message_times infer_a position_time position_time
           ds_quarter_started (CallChain b_silent')).
  - exact ds_quarter_started_reachable.
  - vm_compute; left; reflexivity.
Defined.

(** ** Reachable instances *)

(** In every state an element reaches, property changes included: the
    properties are inside their installed ranges, the counter is between 0
    and [G_MAXINT] (so [quiet_bufs++] never wraps), and a positive counter
    means a segment is being accumulated. *)
Theorem reachable_state_invariant (ds : GstDeepSpeech) :
  reachable ds ->
  valid_config ds /\
  0 <= quiet_bufs ds <= G_MAXINT /\
  (quiet_bufs ds + 1) mod 2 ^ 32 = quiet_bufs ds + 1 /\
  (0 < quiet_bufs ds -> 0 < gst_buffer_get_size (buf ds)).
Proof.
  intros Hr.
  destruct (reachable_range ds Hr) as [Hv Hq].
  split; [exact Hv | split; [exact Hq | split]].
  - apply Z.mod_small; unfold G_MAXINT in Hq; lia.
  - clear Hv Hq; induction Hr as [ | ds c Hr IH Hc].
    + unfold gst_deepspeech_init; cbn [quiet_bufs]; lia.
    + destruct c as [b | e | v | v]; cbn [call].
      * destruct (reachable_range ds Hr) as [(_ & _ & Hl & _) _].
        exact (proj2 (chain_gate_invariant ds b Hl)).
      * destruct e; exact IH.
      * exact IH.
      * exact IH.
Qed.

Lemma reachable_state_invariant_witness :
  0 <= quiet_bufs ds_quarter_started <= G_MAXINT.
Proof.
  apply (reachable_state_invariant ds_quarter_started
           ds_quarter_started_reachable).
Defined.

(** ** Sink events between the buffers *)




(** ** Properties of the element *)

(** Reading back a property gives the value that was set, for a value of
    the type the property is installed with; setting one property leaves
    every other property as it was, and never touches the counter or the
    accumulator of the chain function; the setter for the threshold and
    the length is the one the chain function sees.  An id that is not
    installed changes nothing and is reported. *)
Theorem property_round_trip (el : Element) (prop_id : PropId) (v : GValue) :
  (prop_holds prop_id v ->
   gst_deepspeech_get_property
     (fst (gst_deepspeech_set_property el prop_id v)) prop_id = Some v) /\
  (forall other,
     other <> prop_id ->
     gst_deepspeech_get_property
       (fst (gst_deepspeech_set_property el prop_id v)) other
     = gst_deepspeech_get_property el other) /\
  quiet_bufs (gate (fst (gst_deepspeech_set_property el prop_id v)))
  = quiet_bufs (gate el) /\
  buf (gate (fst (gst_deepspeech_set_property el prop_id v)))
  = buf (gate el) /\
  (prop_id = PROP_SILENCE_THRESHOLD ->
   gate (fst (gst_deepspeech_set_property el prop_id v))
   = set_silence_threshold (gate el) (g_value_get_double v)) /\
  (prop_id = PROP_SILENCE_LENGTH ->
   gate (fst (gst_deepspeech_set_property el prop_id v))
   = set_silence_length (gate el) (g_value_get_int v)) /\
  (snd (gst_deepspeech_set_property el prop_id v) = true <->
   gst_deepspeech_get_property el prop_id = None) /\
  (snd (gst_deepspeech_set_property el prop_id v) = true ->
   fst (gst_deepspeech_set_property el prop_id v) = el).
Proof.
  split; [ | split; [ | split; [ | split; [ | split; [ | split; [ | split]]]]]].
  - destruct prop_id, v; cbn; intros H; try contradiction; reflexivity.
  - intros other Hne; destruct prop_id, other; cbn; congruence.
  - destruct prop_id; reflexivity.
  - destruct prop_id; reflexivity.
  - intros ->; reflexivity.
  - intros ->; reflexivity.
  - destruct prop_id; cbn; split; congruence.
  - destruct prop_id; cbn; congruence.
Qed.

Lemma property_round_trip_witness :
  gst_deepspeech_get_property
    (fst (gst_deepspeech_set_property element_init PROP_SILENCE_LENGTH
            (GInt 20)))
    PROP_SILENCE_LENGTH
  = Some (GInt 20).
Proof.
  apply (property_round_trip element_init PROP_SILENCE_LENGTH (GInt 20)).
  exact I.
Defined.

Lemma set_property_model_current (el : Element) (prop_id : PropId)
      (v : GValue) :
  model_current el ->
  model_current (fst (gst_deepspeech_set_property el prop_id v)).
Proof.
  unfold model_current; intros H; destruct prop_id; cbn; auto.
Qed.

(** The loaded model always belongs to the current paths: it does after
    [gst_deepspeech_init], every property change keeps it so, and so does
    any sequence of them; setting one of the four paths reloads the model
    from the new path and the three others, whatever was loaded before,
    while the two silence properties leave the model alone. *)
Theorem model_follows_paths (el : Element) (prop_id : PropId) (v : GValue) :
  model_current element_init /\
  (model_current el ->
   model_current (fst (gst_deepspeech_set_property el prop_id v))) /\
  (forall ps, model_current (set_properties element_init ps)) /\
  (is_path_prop prop_id = true ->
   model_current (fst (gst_deepspeech_set_property el prop_id v))) /\
  (is_path_prop prop_id = false ->
   model (fst (gst_deepspeech_set_property el prop_id v)) = model el).
Proof.
  split; [reflexivity | split; [apply set_property_model_current | split]].
  - assert (forall ps e, model_current e ->
                         model_current (set_properties e ps)) as Hall.
    { induction ps as [ | [p w] ps IH]; intros e He; [exact He | ].
      cbn [set_properties]; apply IH, set_property_model_current, He. }
    intros ps; apply Hall; reflexivity.
  - split.
    + destruct prop_id; cbn; intros H; try discriminate; reflexivity.
    + destruct prop_id; cbn; intros H; try discriminate; reflexivity.
Qed.

Lemma model_follows_paths_witness :
  model_current (fst (gst_deepspeech_set_property
                        (set_properties element_init some_settings)
                        PROP_TRIE (GString None))).
Proof.
  apply (model_follows_paths (set_properties element_init some_settings)
           PROP_TRIE (GString None)).
  reflexivity.
Defined.

(** ** The first version of the chain function *)

Lemma legacy_threshold : Legacy.threshold = DEFAULT_SILENCE_THRESHOLD.
Proof. reflexivity. Qed.

Lemma legacy_chain_step (st : Legacy.GstDeepSpeech) (b : GstBuffer) :
  of_legacy (fst (Legacy.gst_deepspeech_chain st b))
  = fst (gst_deepspeech_chain (of_legacy st) b) /\
  snd (Legacy.gst_deepspeech_chain st b)
  = snd (gst_deepspeech_chain (of_legacy st) b).
Proof.
  destruct st as [s q acc].
  unfold Legacy.gst_deepspeech_chain, gst_deepspeech_chain, chain_append,
    chain_quiet, chain_flush, of_legacy.
  rewrite legacy_threshold.
  cbn [Legacy.silent Legacy.quiet_bufs Legacy.buf silence_threshold
       silence_length quiet_bufs buf].
  destruct (Qltb DEFAULT_SILENCE_THRESHOLD (ncs b)
            || (0 <? gst_buffer_get_size acc));
    cbn [Legacy.silent Legacy.quiet_bufs Legacy.buf silence_threshold
         silence_length quiet_bufs buf set_buf set_quiet_bufs];
    destruct (Qltb (ncs b) DEFAULT_SILENCE_THRESHOLD && _);
    cbn [Legacy.silent Legacy.quiet_bufs Legacy.buf silence_threshold
         silence_length quiet_bufs buf set_buf set_quiet_bufs];
    unfold DEFAULT_SILENCE_LENGTH;
    destruct (_ && _);
    cbn [Legacy.silent Legacy.quiet_bufs Legacy.buf silence_threshold
         silence_length quiet_bufs buf set_buf set_quiet_bufs fst snd app];
    split; reflexivity.
Qed.

(** The final chain function under the default properties is the chain
    function of the first version, with its literal threshold 0.1 and run
    limit 5: on every buffer, and so on every stream, both leave the same
    counter and accumulator and make the same calls to the pool and the
    source pad.  The sink event function of the first version only
    forwards: the two versions make the same calls on every sink event
    but end of stream, where the first version submits nothing and so
    leaves what is accumulated unrecognised. *)
Theorem legacy_chain_agrees (st : Legacy.GstDeepSpeech) :
  (forall bs,
     of_legacy (fst (Legacy.chain_stream st bs))
     = fst (chain_stream (of_legacy st) bs) /\
     snd (Legacy.chain_stream st bs) = snd (chain_stream (of_legacy st) bs)) /\
  (forall e,
     (snd (Legacy.gst_deepspeech_sink_event st e)
      = snd (gst_deepspeech_sink_event (of_legacy st) e)
      <-> e <> GST_EVENT_EOS) /\
     submitted (snd (Legacy.gst_deepspeech_sink_event st e)) = []).
Proof.
  split.
  - intros bs; revert st; induction bs as [ | b bs IH]; intros st.
    + split; reflexivity.
    + cbn [Legacy.chain_stream chain_stream].
      destruct (legacy_chain_step st b) as [Hst Hacts].
      destruct (Legacy.gst_deepspeech_chain st b) as [st1 acts1].
      destruct (gst_deepspeech_chain (of_legacy st) b) as [ds1 acts1'].
      cbn [fst snd] in *; subst ds1 acts1'.
      destruct (IH st1) as [IH1 IH2].
      destruct (Legacy.chain_stream st1 bs) as [st2 acts2].
      destruct (chain_stream (of_legacy st1) bs) as [ds2 acts2'].
      cbn [fst snd] in *; subst; split; reflexivity.
  - intros e; unfold Legacy.gst_deepspeech_sink_event; cbn [snd].
    split; [ | reflexivity].
    destruct e; cbn [gst_deepspeech_sink_event snd of_legacy buf].
    + split; [discriminate | reflexivity].
    + split; [ | congruence].
      destruct (0 <? gst_buffer_get_size (Legacy.buf st)); cbn [app];
        discriminate.
    + split; [discriminate | reflexivity].
Qed.

(** ** Streams as a whole *)

Lemma chain_stream_captured_all (bs : list GstBuffer) :
  forall ds,
    0 < gst_buffer_get_size (buf ds) ->
    submitted (snd (chain_stream ds bs)) = [] ->
    captured ds bs = bs.
Proof.
  induction bs as [ | b bs IH]; intros ds Hacc Hsub; [reflexivity | ].
  cbn [chain_stream captured] in *.
  apply Z.ltb_lt in Hacc; rewrite Hacc, orb_true_r; cbn [app]; f_equal.
  apply Z.ltb_lt in Hacc.
  pose proof (chain_outcome ds b) as Hout.
  destruct (gst_deepspeech_chain ds b) as [ds1 acts1]; cbn [fst snd] in *.
  destruct (chain_stream ds1 bs) as [ds2 acts2] eqn:E; cbn [snd] in *.
  rewrite submitted_app in Hsub; apply app_eq_nil in Hsub.
  destruct Hsub as [Hs1 Hs2].
  destruct Hout as [[_ Hb] | (Hs & _)]; [ | congruence].
  apply IH.
  - rewrite Hb, chain_append_yes by (right; exact Hacc); cbn [buf set_buf].
    rewrite gst_buffer_append_size.
    pose proof (gst_buffer_get_size_nonneg b); lia.
  - rewrite E; exact Hs2.
Qed.

(** Continuous speech is never cut: while every buffer is at or above the
    threshold the chain function flushes nothing, however long the stream;
    and if the accumulator already holds bytes, it ends up holding them
    followed by the bytes of all the buffers. *)
Theorem continuous_speech_not_cut (ds : GstDeepSpeech) (bs : list GstBuffer) :
  0 <= silence_length ds ->
  Forall (fun b => (silence_threshold ds <= ncs b)%Q) bs ->
  submitted (snd (chain_stream ds bs)) = [] /\
  (0 < gst_buffer_get_size (buf ds) ->
   data (buf (fst (chain_stream ds bs)))
   = data (buf ds) ++ flat_map data bs).
Proof.
  intros Hlen Hbs.
  assert (submitted (snd (chain_stream ds bs)) = []) as Hsub.
  { apply chain_stream_submitted_nil; [ | exact Hlen].
    intros b Hin; apply Qltb_ge.
    rewrite Forall_forall in Hbs; apply Hbs; exact Hin. }
  split; [exact Hsub | ].
  intros Hacc.
  pose proof (segments_bytes_helper ds bs) as Hcons.
  rewrite Hsub in Hcons; cbn [flat_map app] in Hcons.
  rewrite Hcons, (chain_stream_captured_all bs ds Hacc Hsub); reflexivity.
Qed.

Lemma continuous_speech_not_cut_witness :
  submitted (snd (chain_stream gst_deepspeech_init (repeat b_loud 8))) = [].
Proof.
  apply (continuous_speech_not_cut gst_deepspeech_init (repeat b_loud 8)).
  - vm_compute; discriminate.
  - repeat constructor; vm_compute; discriminate.
Defined.

Lemma inactive_on_empty (ds : GstDeepSpeech) (b : GstBuffer) :
  gst_buffer_get_size (buf ds) = 0 -> is_active ds b = false ->
  gst_deepspeech_chain ds b = (set_quiet_bufs ds 0, [PadPush b]).
Proof.
  intros Hempty Hna; unfold is_active in Hna.
  unfold gst_deepspeech_chain, chain_append; rewrite Hna, Hempty.
  cbn [orb Z.ltb Z.compare].
  unfold chain_quiet; rewrite Hempty; cbn [Z.ltb Z.compare].
  rewrite andb_false_r.
  unfold chain_flush; cbn [buf set_quiet_bufs]; rewrite Hempty.
  cbn [Z.ltb Z.compare]; rewrite andb_false_r; reflexivity.
Qed.

(** Silence before speech is dropped: on an empty accumulator, a stream of
    buffers none of which is active appends nothing and submits nothing; the
    accumulator stays empty, the counter at 0, and every buffer is still
    forwarded. *)
Theorem leading_silence_dropped (ds : GstDeepSpeech) (bs : list GstBuffer) :
  gst_buffer_get_size (buf ds) = 0 ->
  Forall (fun b => is_active ds b = false) bs ->
  captured ds bs = [] /\
  snd (chain_stream ds bs) = map PadPush bs /\
  buf (fst (chain_stream ds bs)) = buf ds /\
  (bs <> [] -> quiet_bufs (fst (chain_stream ds bs)) = 0).
Proof.
  revert ds; induction bs as [ | b bs IH]; intros ds Hempty Hbs.
  - repeat split; try reflexivity; congruence.
  - inversion Hbs as [ | ? ? Hb Hrest]; subst.
    cbn [chain_stream captured map].
    rewrite (inactive_on_empty ds b Hempty Hb); cbn [fst].
    unfold is_active in Hb; rewrite Hb, Hempty; cbn [orb Z.ltb Z.compare app].
    destruct (IH (set_quiet_bufs ds 0) Hempty Hrest) as (Hc & Hs & Hbuf & Hq).
    destruct (chain_stream (set_quiet_bufs ds 0) bs) as [ds2 acts2] eqn:E;
      cbn [fst snd] in *.
    split; [exact Hc | split; [rewrite Hs; reflexivity | split]].
    + exact Hbuf.
    + intros _; destruct bs as [ | b' bs'].
      * cbn [chain_stream] in E; injection E as <- _; reflexivity.
      * apply Hq; discriminate.
Qed.

Lemma leading_silence_dropped_witness :
  captured gst_deepspeech_init three_silent = [].
Proof.
  apply (leading_silence_dropped gst_deepspeech_init three_silent).
  - reflexivity.
  - repeat constructor.
Defined.

(** No trailing utterance is lost: a stream followed by end of stream
    submits, over the segments flushed on the way and the one pushed at end
    of stream, exactly the bytes the accumulator started with followed by
    the bytes of every appended buffer, in order. *)
Theorem end_of_stream_submits_remainder (ds : GstDeepSpeech)
        (bs : list GstBuffer) :
  flat_map data
    (submitted
       (snd (chain_stream ds bs)
        ++ snd (gst_deepspeech_sink_event (fst (chain_stream ds bs))
                  GST_EVENT_EOS)))
  = data (buf ds) ++ flat_map data (captured ds bs).
Proof.
  rewrite submitted_app, flat_map_app, <- segments_bytes_helper.
  f_equal.
  unfold gst_deepspeech_sink_event; cbn [snd].
  set (acc := buf (fst (chain_stream ds bs))).
  destruct (Z.ltb_spec 0 (gst_buffer_get_size acc)) as [Hs | Hs];
    cbn [submitted flat_map app].
  - rewrite gst_buffer_copy_deep_id, app_nil_r; reflexivity.
  - unfold gst_buffer_get_size in Hs.
    destruct (data acc); [reflexivity | cbn [length] in Hs; lia].
Qed.

(** ** What the engine is given *)

Lemma whole_samples_append (acc b : GstBuffer) :
  whole_samples acc -> whole_samples b ->
  whole_samples (gst_buffer_append acc b).
Proof.
  unfold whole_samples; intros Ha Hb.
  rewrite gst_buffer_append_size, Z.even_add, Ha, Hb; reflexivity.
Qed.

Lemma whole_samples_count (b : GstBuffer) :
  whole_samples b ->
  gst_buffer_get_size b = 2 * Z.of_nat (length (samples (data b))).
Proof.
  unfold whole_samples; intros H.
  rewrite samples_length; fold (gst_buffer_get_size b).
  apply Z.even_spec in H; destruct H as [k Hk]; rewrite Hk.
  rewrite Z.mul_comm, Z.div_mul by lia; lia.
Qed.

Lemma submitted_whole_samples (bs : list GstBuffer) :
  forall ds,
    whole_samples (buf ds) -> Forall whole_samples bs ->
    Forall whole_samples (submitted (snd (chain_stream ds bs))).
Proof.
  induction bs as [ | b bs IH]; intros ds Hacc Hbs; [constructor | ].
  inversion Hbs as [ | ? ? Hb Hrest]; subst.
  cbn [chain_stream].
  assert (whole_samples (buf (chain_append ds b))) as Happ.
  { unfold chain_append; destruct (_ || _); cbn [buf set_buf];
      [apply whole_samples_append; assumption | exact Hacc]. }
  pose proof (chain_outcome ds b) as Hout.
  specialize (IH (fst (gst_deepspeech_chain ds b))).
  destruct (gst_deepspeech_chain ds b) as [ds1 acts1]; cbn [fst snd] in *.
  destruct (chain_stream ds1 bs) as [ds2 acts2]; cbn [snd] in *.
  rewrite submitted_app; apply Forall_app.
  destruct Hout as [[-> Hb1] | (-> & Hb1 & _)]; rewrite Hb1 in IH.
  - split; [constructor | apply IH; assumption].
  - split; [constructor; [exact Happ | constructor] | ].
    apply IH; [reflexivity | exact Hrest].
Qed.

(** The engine is given the byte count as the length of the signal: on a
    stream of buffers of whole 16-bit samples every submitted segment holds
    whole samples, and the length [run_model_async] passes to
    [getInputVector] with the samples is the size of the segment in bytes,
    twice the number of samples it holds. *)
Theorem input_vector_size_in_bytes (ds : GstDeepSpeech) (bs : list GstBuffer)
        (seg : GstBuffer) :
  whole_samples (buf ds) -> Forall whole_samples bs ->
  In seg (submitted (snd (chain_stream ds bs))) ->
  gst_buffer_get_size seg < 2 ^ 32 ->
  whole_samples seg /\
  input_vector_size seg = 2 * Z.of_nat (length (samples (data seg))) /\
  Z.of_nat (length (samples (data seg))) < input_vector_size seg.
Proof.
  intros Hacc Hbs Hin Hsize.
  pose proof (submitted_whole_samples bs ds Hacc Hbs) as Hall.
  rewrite Forall_forall in Hall; specialize (Hall seg Hin).
  assert (0 < gst_buffer_get_size seg) as Hpos.
  { clear Hall Hsize Hacc Hbs; revert ds Hin.
    induction bs as [ | b bs IH]; intros ds Hin; [contradiction | ].
    cbn [chain_stream] in Hin.
    pose proof (chain_outcome ds b) as Hout.
    specialize (IH (fst (gst_deepspeech_chain ds b))).
    destruct (gst_deepspeech_chain ds b) as [ds1 acts1]; cbn [fst snd] in *.
    destruct (chain_stream ds1 bs) as [ds2 acts2]; cbn [snd] in *.
    rewrite submitted_app in Hin; apply in_app_or in Hin.
    destruct Hin as [Hin | Hin]; [ | apply IH; exact Hin].
    destruct Hout as [[Hs _] | (Hs & _ & Hp)]; rewrite Hs in Hin;
      [contradiction | ].
    destruct Hin as [<- | []]; exact Hp. }
  pose proof (whole_samples_count seg Hall) as Hcount.
  unfold input_vector_size; rewrite Z.mod_small by lia.
  split; [exact Hall | split; [exact Hcount | lia]].
Qed.

Lemma input_vector_size_in_bytes_witness :
  input_vector_size
    (fold_left gst_buffer_append [b_loud; b_silent; b_silent'] gst_buffer_new)
  = 2 * Z.of_nat
          (length (samples (data (fold_left gst_buffer_append
                                    [b_loud; b_silent; b_silent']
                                    gst_buffer_new)))).
Proof.
  apply (input_vector_size_in_bytes ds_quarter [b_loud; b_silent; b_silent']).
  - reflexivity.
  - repeat constructor.
  - vm_compute; left; reflexivity.
  - vm_compute; reflexivity.
Defined.
